(** * Air-conditioner specification extraction (script5.py)

    A shallow embedding of the extraction engine of [script5.py]:
    [parse_power_value], [find_energy_class], [extract_specs_from_text],
    [fetch_product_specs], the module-level merge of automatic and manual
    values and the simulation computed from them, together with the
    properties the specification states about them and further properties
    read off the code.

    Python values are modelled as follows.
    - A [str] is the list of its Unicode code points.
    - A [float] is an IEEE-754 binary64 number, with the operations of the
      Standard Library's [SpecFloat] at precision 53 and maximal exponent
      1024.
    - [re.search] is a backtracking matcher over a small syntax of regular
      expressions with capture groups (ordered alternation, greedy
      repetition, leftmost match).
    - A raised exception is a value of a sum type; [try ... except] is a
      case analysis on it. *)

From Stdlib Require Import ZArith NArith QArith List Bool Lia String Ascii.
From Stdlib Require Import Floats.SpecFloat.
Import ListNotations.

Set Implicit Arguments.

(** ** Python strings *)

Module PyStr.

(** A character is a Unicode code point. *)
Definition char := N.
Definition str := list char.

Local Open Scope N_scope.

(** Reading of a UTF-8 encoded literal: [need] continuation bytes are still
    expected for the code point accumulated in [acc]. *)
Fixpoint utf8 (acc : N) (need : nat) (bs : list N) : str :=
  match bs with
  | [] => []
  | b :: bs' =>
      match need with
      | S n =>
          let acc' := acc * 64 + b mod 64 in
          match n with
          | O => acc' :: utf8 0 O bs'
          | S _ => utf8 acc' n bs'
          end
      | O =>
          if b <? 128 then b :: utf8 0 O bs'
          else if b <? 224 then utf8 (b mod 32) 1 bs'
          else if b <? 240 then utf8 (b mod 16) 2 bs'
          else utf8 (b mod 8) 3 bs'
      end
  end.

(** [py "..."] is the Python string written as the literal. *)
Definition py (s : string) : str :=
  utf8 0 O (List.map N_of_ascii (list_ascii_of_string s)).

Definition str_eqb (a b : str) : bool :=
  if list_eq_dec N.eq_dec a b then true else false.

(** [a in s] for strings: [a] occurs as a substring of [s]. *)
Fixpoint startswith (s a : str) : bool :=
  match a, s with
  | [], _ => true
  | _ :: _, [] => false
  | x :: a', c :: s' => (x =? c) && startswith s' a'
  end.

Fixpoint contains (s a : str) : bool :=
  startswith s a ||
  match s with
  | [] => false
  | _ :: s' => contains s' a
  end.

(** [s.replace(',', '.')]: every occurrence of one character replaced. *)
Definition replace_char (old new : char) (s : str) : str :=
  List.map (fun c => if c =? old then new else c) s.

Definition in_range (lo hi c : char) : bool := (lo <=? c) && (c <=? hi).

(** [str.lower()], character by character.  The letters A-Z and the capital
    letters of Latin-1 move 32 places up; U+0130 (capital I with dot)
    becomes "i" followed by U+0307, and U+212A (Kelvin sign) becomes "k".
    Those are all the characters whose lower-case form contains a character
    that some pattern of this program can tell from another; every other
    character is kept as it is. *)
Definition lower_char (c : char) : str :=
  if in_range 65 90 c then [c + 32]
  else if in_range 192 222 c && negb (c =? 215) then [c + 32]
  else if c =? 304 then [105; 775]
  else if c =? 8490 then [107]
  else [c].

Definition lower (s : str) : str := flat_map lower_char s.

(** [str.isspace()] of one character: what [\s] matches in a [str] pattern. *)
Definition is_space (c : char) : bool :=
  in_range 9 13 c || in_range 28 32 c || (c =? 133) || (c =? 160)
  || (c =? 5760) || in_range 8192 8202 c || (c =? 8232) || (c =? 8233)
  || (c =? 8239) || (c =? 8287) || (c =? 12288).

(** First code points of the blocks of ten decimal digits (general category
    Nd) of the Unicode character database, version 14.0; the fifty
    mathematical digits from U+1D7CE are five such blocks. *)
Definition digit_blocks : list N :=
  [48; 1632; 1776; 1984; 2406; 2534; 2662; 2790; 2918; 3046; 3174; 3302;
   3430; 3558; 3664; 3792; 3872; 4160; 4240; 6112; 6160; 6470; 6608; 6784;
   6800; 6992; 7088; 7232; 7248; 42528; 43216; 43264; 43472; 43504; 43600;
   44016; 65296; 66720; 68912; 69734; 69872; 69942; 70096; 70384; 70736;
   70864; 71248; 71360; 71472; 71904; 72016; 72784; 73040; 73120; 92768;
   92864; 93008; 120782; 120792; 120802; 120812; 120822; 123200; 123632;
   125264; 130032].

(** The decimal value of a digit character, if it is one. *)
Fixpoint digit_in (blocks : list N) (c : char) : option N :=
  match blocks with
  | [] => None
  | b :: bs => if in_range b (b + 9) c then Some (c - b) else digit_in bs c
  end.

Definition digit_value (c : char) : option N := digit_in digit_blocks c.

(** What [\d] matches in a [str] pattern. *)
Definition is_digit (c : char) : bool :=
  match digit_value c with Some _ => true | None => false end.

End PyStr.
Export PyStr.

(** ** Regular expressions ([re], flag [IGNORECASE]) *)

Module Re.

Local Open Scope N_scope.

(** A character of the text against a (lower-case) literal of a pattern
    compiled with [IGNORECASE]: the text character is lower-cased with the
    simple one-to-one mapping, and the dotless i (U+0131) and the long s
    (U+017F) also count as "i" and "s". *)
Definition simple_lower (c : char) : char :=
  if in_range 65 90 c then c + 32
  else if in_range 192 222 c && negb (c =? 215) then c + 32
  else if c =? 304 then 105
  else if c =? 8490 then 107
  else c.

Definition ci_eq (p c : char) : bool :=
  (simple_lower c =? p)
  || ((p =? 105) && (c =? 305))
  || ((p =? 115) && (c =? 383)).

(** The syntax the patterns of the program need.  Repetition is only ever
    applied to a set of characters. *)
Inductive regex : Type :=
| Eps : regex
| Lit (p : char) : regex
| Class (f : char -> bool) : regex
| Cat (r1 r2 : regex) : regex
| Alt (r1 r2 : regex) : regex
| Star (f : char -> bool) : regex
| Group (n : nat) (r : regex) : regex.

(** [X+] and [X?], both greedy. *)
Definition Plus (f : char -> bool) : regex := Cat (Class f) (Star f).
Definition Opt (r : regex) : regex := Alt r Eps.

(** A literal word. *)
Fixpoint Str (w : str) : regex :=
  match w with
  | [] => Eps
  | [p] => Lit p
  | p :: w' => Cat (Lit p) (Str w')
  end.

(** The groups captured so far, latest first. *)
Definition groups := list (nat * str).

Fixpoint group (n : nat) (g : groups) : str :=
  match g with
  | [] => []
  | (i, w) :: g' => if Nat.eqb i n then w else group n g'
  end.

Section Matcher.
Variable A : Type.

(** Greedy repetition: take the character if it is in the set and go on;
    give it back when what follows fails. *)
Fixpoint star (f : char -> bool) (s : str) (k : str -> option A)
  : option A :=
  match s with
  | c :: s' =>
      if f c then
        match star f s' k with
        | Some x => Some x
        | None => k s
        end
      else k s
  | [] => k s
  end.

(** Backtracking match of [r] at the head of [s]; [k] is what remains to
    be matched after [r]. *)
Fixpoint matchk (r : regex) (s : str) (g : groups)
         (k : str -> groups -> option A) : option A :=
  match r with
  | Eps => k s g
  | Lit p =>
      match s with
      | c :: s' => if ci_eq p c then k s' g else None
      | [] => None
      end
  | Class f =>
      match s with
      | c :: s' => if f c then k s' g else None
      | [] => None
      end
  | Cat r1 r2 => matchk r1 s g (fun s' g' => matchk r2 s' g' k)
  | Alt r1 r2 =>
      match matchk r1 s g k with
      | Some x => Some x
      | None => matchk r2 s g k
      end
  | Star f => star f s (fun s' => k s' g)
  | Group n r' =>
      matchk r' s g
        (fun s' g' =>
           k s' ((n, firstn (List.length s - List.length s') s) :: g'))
  end.
End Matcher.

(** [re.match]: the groups of the match of [r] at the start of [s]. *)
Definition match_at (r : regex) (s : str) : option groups :=
  matchk r s [] (fun _ g => Some g).

(** [re.search]: the match at the leftmost position that has one. *)
Fixpoint search (r : regex) (s : str) : option groups :=
  match match_at r s with
  | Some g => Some g
  | None =>
      match s with
      | [] => None
      | _ :: s' => search r s'
      end
  end.

(** What a pattern can match, and the groups it then records. *)
Inductive sem : regex -> str -> groups -> groups -> Prop :=
| sem_eps g : sem Eps [] g g
| sem_lit p c g : ci_eq p c = true -> sem (Lit p) [c] g g
| sem_class f c g : f c = true -> sem (Class f) [c] g g
| sem_cat r1 r2 w1 w2 g g1 g2 :
    sem r1 w1 g g1 -> sem r2 w2 g1 g2 -> sem (Cat r1 r2) (w1 ++ w2) g g2
| sem_alt_l r1 r2 w g g' : sem r1 w g g' -> sem (Alt r1 r2) w g g'
| sem_alt_r r1 r2 w g g' : sem r2 w g g' -> sem (Alt r1 r2) w g g'
| sem_star f w g : forallb f w = true -> sem (Star f) w g g
| sem_group n r w g g' : sem r w g g' -> sem (Group n r) w g ((n, w) :: g').

End Re.
Export Re.

(** ** Python floats *)

Module PyFloat.

Definition prec : Z := 53.
Definition emax : Z := 1024.

Definition float := spec_float.

(** An integer as an operand of a division; the mantissa is not normalised,
    the division rounds. *)
Definition of_Z_exact (n : Z) : float :=
  match n with
  | Z0 => S754_zero false
  | Zpos p => S754_finite false p 0
  | Zneg p => S754_finite true p 0
  end.

(** The float nearest to the decimal [n / 10^k] (ties to even): the value of
    a decimal literal and of [float()] on a decimal string. *)
Definition of_decimal (n : Z) (k : nat) : float :=
  SFdiv prec emax (of_Z_exact n) (of_Z_exact (10 ^ Z.of_nat k)).

(** [float(n)] for an integer [n]. *)
Definition of_int (n : Z) : float := of_decimal n 0.

Definition mul (x y : float) : float := SFmul prec emax x y.

(** Truth value of a float: [x != 0.0]. *)
Definition truthy (x : float) : bool :=
  match x with
  | S754_zero _ => false
  | _ => true
  end.

(** [0.0 <= x]. *)
Definition nonneg (x : float) : bool := SFleb (S754_zero false) x.

(** A float that is not NaN and whose sign bit is clear. *)
Definition plus_signed (x : float) : bool :=
  match x with
  | S754_zero false | S754_infinity false | S754_finite false _ _ => true
  | _ => false
  end.

(** The rational a finite float stands for. *)
Definition to_Q (x : float) : option Q :=
  match x with
  | S754_zero _ => Some 0%Q
  | S754_finite s m e =>
      let v := match e with
               | Zneg p => Qmake (Zpos m) (2 ^ p)
               | _ => inject_Z (Zpos m * 2 ^ e)
               end in
      Some (if s then Qopp v else v)
  | _ => None
  end.

End PyFloat.
Export PyFloat.

(** ** The program *)

Local Open Scope N_scope.

(** Exceptions the modelled code can raise. *)
Inductive exn : Type :=
| ValueError
| KeyError
| OtherError
| Interrupt.

(** The classes that [except Exception] catches.  [Interrupt] stands for
    the exceptions outside the class [Exception], such as
    [KeyboardInterrupt] and [SystemExit]: only a bare [except] catches
    them. *)
Definition is_exception (e : exn) : bool :=
  match e with
  | Interrupt => false
  | _ => true
  end.

(** The outcome of a piece of code that may raise. *)
Definition result (A : Type) : Type := (exn + A)%type.

Definition bind_result {A B : Type} (x : result A) (f : A -> result B)
  : result B :=
  match x with
  | inl e => inl e
  | inr a => f a
  end.

Notation "x <- c1 ;; c2" := (bind_result c1 (fun x => c2))
  (at level 61, c1 at next level, right associativity).

(** *** Character sets of the patterns *)

(** The set "[\d.,]". *)
Definition digit_dot_comma (c : char) : bool :=
  is_digit c || (c =? 46) || (c =? 44).

(** The set "[:\s]". *)
Definition colon_space (c : char) : bool := (c =? 58) || is_space c.

(** The set "[A-G]" under [IGNORECASE]. *)
Definition class_letter (c : char) : bool :=
  in_range 65 71 c || in_range 97 103 c.

(** The set "[\+]". *)
Definition plus_sign (c : char) : bool := c =? 43.

(** The group "(w|kw|btu)", numbered [n]. *)
Definition unit_group (n : nat) : regex :=
  Group n (Alt (Str (py "w")) (Alt (Str (py "kw")) (Str (py "btu")))).

(** *** [parse_power_value] *)

(** A number of Python: the values of [conversions] are two [int]s and a
    [float]. *)
Inductive number : Type :=
| PyInt (n : Z)
| PyFloat (x : float).

(** [float * number]: an [int] operand is converted to [float] first. *)
Definition float_times (x : float) (c : number) : float :=
  match c with
  | PyInt n => mul x (of_int n)
  | PyFloat y => mul x y
  end.

Definition conversions : list (str * number) :=
  [ (py "w", PyInt 1);
    (py "kw", PyInt 1000);
    (py "btu", PyFloat (of_decimal 29307107 8)) ].

(** [d[key]] *)
Fixpoint getitem (d : list (str * number)) (key : str) : result number :=
  match d with
  | [] => inl KeyError
  | (k, v) :: d' => if str_eqb k key then inr v else getitem d' key
  end.

(** The digits of [s] read in base ten after [acc], when all its characters
    are decimal digits. *)
Fixpoint read_digits (acc : Z) (s : str) : option Z :=
  match s with
  | [] => Some acc
  | c :: s' =>
      match digit_value c with
      | Some d => read_digits (10 * acc + Z.of_N d) s'
      | None => None
      end
  end.

(** [s] cut at its first "." : what is before, and what is after if there
    is one. *)
Fixpoint split_dot (s : str) : str * option str :=
  match s with
  | [] => ([], None)
  | c :: s' =>
      if c =? 46 then ([], Some s')
      else let (a, b) := split_dot s' in (c :: a, b)
  end.

(** [float(s)] for a string of decimal digits and "." characters, the only
    strings the first group of the pattern of [parse_power_value] can hold
    once its commas are replaced: digits with at most one "." among them,
    at least one digit in all, read as a decimal number and rounded to the
    nearest float.  Anything else raises [ValueError]. *)
Definition float_of_str (s : str) : result float :=
  match split_dot s with
  | (ip, None) =>
      match ip, read_digits 0 ip with
      | _ :: _, Some n => inr (of_decimal n 0)
      | _, _ => inl ValueError
      end
  | (ip, Some fp) =>
      match ip ++ fp, read_digits 0 (ip ++ fp) with
      | _ :: _, Some n => inr (of_decimal n (List.length fp))
      | _, _ => inl ValueError
      end
  end.

(** The pattern of [parse_power_value]: group 1 is "\d+[\d.,]*", then "\s*",
    group 2 is "w|kw|btu", then "/?h?". *)
Definition power_re : regex :=
  Cat (Group 1 (Cat (Plus is_digit) (Star digit_dot_comma)))
  (Cat (Star is_space)
  (Cat (unit_group 2)
  (Cat (Opt (Lit 47)) (Opt (Lit 104))))).

(** The body of the [try]: the product, or the exception raised. *)
Definition power_of_groups (value unit : str) : result float :=
  x <- float_of_str (replace_char 44 46 value) ;;
  c <- getitem conversions (lower unit) ;;
  inr (float_times x c).

Definition parse_power_value (val_str : str) : option float :=
  match search power_re val_str with
  | None => None
  | Some m =>
      match power_of_groups (group 1 m) (group 2 m) with
      | inr v => Some v
      | inl _ => None
      end
  end.

(** *** [find_energy_class] *)

(** The pattern of [find_energy_class]: group 1 is
    "classe énergétique|energy class", then "[:\s]*", group 2 is "[A-G][\+]*". *)
Definition class_re : regex :=
  Cat (Group 1 (Alt (Str (py "classe énergétique")) (Str (py "energy class"))))
  (Cat (Star colon_space)
       (Group 2 (Cat (Class class_letter) (Star plus_sign)))).

Definition find_energy_class (text : str) : option str :=
  match search class_re text with
  | Some class_match => Some (group 2 class_match)
  | None => None
  end.

(** *** [extract_specs_from_text] *)

(** The dictionary [specs]: four keys, each holding [None] or a value. *)
Record specs : Type := mkSpecs {
  consumption_w : option float;
  cooling_w : option float;
  inverter : option str;
  energy_class : option str
}.

Definition set_consumption_w (v : option float) (s : specs) : specs :=
  mkSpecs v (cooling_w s) (inverter s) (energy_class s).
Definition set_cooling_w (v : option float) (s : specs) : specs :=
  mkSpecs (consumption_w s) v (inverter s) (energy_class s).
Definition set_inverter (v : option str) (s : specs) : specs :=
  mkSpecs (consumption_w s) (cooling_w s) v (energy_class s).
Definition set_energy_class (v : option str) (s : specs) : specs :=
  mkSpecs (consumption_w s) (cooling_w s) (inverter s) v.

(** The end of the two patterns below: group 2 is "[\d.,]+\s*" followed by
    group 3, "w|kw|btu". *)
Definition quantity_group : regex :=
  Group 2 (Cat (Plus digit_dot_comma) (Cat (Star is_space) (unit_group 3))).

(** The consumption pattern: group 1 is
    "consommation|puissance absorbée|power consumption", then "[:\s]*", then
    the quantity. *)
Definition consumption_re : regex :=
  Cat (Group 1 (Alt (Str (py "consommation"))
               (Alt (Str (py "puissance absorbée"))
                    (Str (py "power consumption")))))
  (Cat (Star colon_space) quantity_group).

(** The cooling pattern: group 1 is
    "puissance frigorifique|cooling capacity|capacity", then "[:\s]*", then
    the quantity. *)
Definition cooling_re : regex :=
  Cat (Group 1 (Alt (Str (py "puissance frigorifique"))
               (Alt (Str (py "cooling capacity"))
                    (Str (py "capacity")))))
  (Cat (Star colon_space) quantity_group).

Definition extract_specs_from_text (text : str) : specs :=
  let text := lower text in
  let specs := mkSpecs None None None None in
  let specs :=
    match search consumption_re text with
    | Some consumption_match =>
        set_consumption_w (parse_power_value (group 2 consumption_match)) specs
    | None => specs
    end in
  let specs :=
    match search cooling_re text with
    | Some cooling_match =>
        set_cooling_w (parse_power_value (group 2 cooling_match)) specs
    | None => specs
    end in
  let specs :=
    set_inverter
      (Some (if contains text (py "inverter")
             then py "Inverter" else py "Non-Inverter")) specs in
  let specs := set_energy_class (find_energy_class text) specs in
  specs.

(** *** [fetch_product_specs] *)

(** The two states of the fallback chain: the [try] block that looks for a
    PDF data sheet, and the one that reads the plain result page. *)
Inductive stage : Type :=
| PDF_SEARCH
| HTML_SEARCH.

(** What a run leaves behind: the blocks entered and the requests sent, with
    their time limit in seconds when they have one. *)
Inductive event : Type :=
| Enter (s : stage)
| Get (url : str) (timeout : option Z).

(** The answer to a request: [response.text] and [response.content]. *)
Record response : Type := mkResponse {
  text : str;
  content : list N
}.

Section Fetch.

(** The network and the libraries the program calls are not part of it:
    they are taken as they come.  A request may change the outside world
    and may fail; the parsers are functions of their input and may
    fail. *)
Variable World : Type.

(** [requests.get(url, headers=HEADERS, timeout=...)] *)
Variable requests_get : str -> option Z -> World -> result response * World.

(** [requests.utils.quote] *)
Variable quote : str -> str.

(** [a['href']] for the [a] of
    [BeautifulSoup(html, 'html.parser').find_all('a', href=True)] *)
Variable hrefs : str -> result (list str).

(** The address computed from the first link (line 87, whose expression
    is not well formed in the source): whatever it yields or raises. *)
Variable link_target : str -> result str.

(** The text of the pages of a PDF document, joined by line feeds. *)
Variable pdf_text : list N -> result str.

(** [BeautifulSoup(html, 'html.parser').find('div', id='search').get_text()] *)
Variable search_div_text : str -> result str.

(** The state a run threads: the outside world and the events so far,
    latest last. *)
Definition state : Type := (World * list event)%type.

(** A command: from a state, a value or an exception, and a new state. *)
Definition M (A : Type) : Type := state -> result A * state.

Definition ret {A : Type} (a : A) : M A := fun st => (inr a, st).

Definition bind {A B : Type} (c : M A) (f : A -> M B) : M B :=
  fun st =>
    match c st with
    | (inr a, st') => f a st'
    | (inl e, st') => (inl e, st')
    end.

Definition lift {A : Type} (r : result A) : M A := fun st => (r, st).

Definition enter (s : stage) : M unit :=
  fun st => (inr tt, (fst st, snd st ++ [Enter s])).

Definition get (url : str) (timeout : option Z) : M response :=
  fun st =>
    let (r, w) := requests_get url timeout (fst st) in
    (r, (w, snd st ++ [Get url timeout])).

Local Notation "x <<- c1 ;; c2" := (bind c1 (fun x => c2))
  (at level 61, c1 at next level, right associativity).

Definition pdf_search_url (model : str) : str :=
  py "https://www.google.com/search?q="
  ++ quote (model ++ py " technical specifications filetype:pdf").

Definition html_search_url (model : str) : str :=
  py "https://www.google.com/search?q=" ++ quote model.

Definition is_pdf_link (href : str) : bool :=
  contains (lower href) (py "pdf") && negb (contains href (py "google.com")).

(** The first [try] block: [Some specs] when it returns, [None] when it
    ends without returning (no PDF link). *)
Definition pdf_search (model : str) : M (option specs) :=
  _ <<- enter PDF_SEARCH ;;
  response <<- get (pdf_search_url model) (Some 10%Z) ;;
  links <<- lift (hrefs (text response)) ;;
  let pdf_links := filter is_pdf_link links in
  match pdf_links with
  | first :: _ =>
      pdf_url <<- lift (link_target first) ;;
      pdf_response <<- get pdf_url (Some 15%Z) ;;
      text <<- lift (pdf_text (content pdf_response)) ;;
      ret (Some (extract_specs_from_text text))
  | [] => ret None
  end.

(** The second [try] block. *)
Definition html_search (model : str) : M specs :=
  _ <<- enter HTML_SEARCH ;;
  response <<- get (html_search_url model) None ;;
  main_content <<- lift (search_div_text (text response)) ;;
  ret (extract_specs_from_text main_content).

(** The second [try] with its handler, a bare [except] that returns
    [None] whatever was raised. *)
Definition html_fallback (model : str) : M (option specs) :=
  fun st =>
    match html_search model st with
    | (inr specs, st') => (inr (Some specs), st')
    | (inl _, st') => (inr None, st')
    end.

(** The handler of the first [try] is [except Exception]: it passes on to
    the second block after an exception of that class, and lets any other
    leave the function. *)
Definition fetch_product_specs (model : str) : M (option specs) :=
  fun st =>
    match pdf_search model st with
    | (inr (Some specs), st') => (inr (Some specs), st')
    | (inr None, st') => html_fallback model st'
    | (inl e, st') =>
        if is_exception e then html_fallback model st' else (inl e, st')
    end.

(** The first block fails when it raises or ends without a PDF link. *)
Definition pdf_search_fails (model : str) (st : state) : Prop :=
  forall specs, fst (pdf_search model st) <> inr (Some specs).

(** The first block fails in a way that its handler recovers from: it
    ends without a PDF link, or it raises an exception of the class
    [Exception]. *)
Definition pdf_search_recovered (model : str) (st : state) : Prop :=
  fst (pdf_search model st) = inr None
  \/ exists e, fst (pdf_search model st) = inl e /\ is_exception e = true.

(** The stages entered, in order. *)
Fixpoint stages (t : list event) : list stage :=
  match t with
  | [] => []
  | Enter s :: t' => s :: stages t'
  | Get _ _ :: t' => stages t'
  end.

(** A call of [extract_specs_from_text] as a command. *)
Definition call_extract (text : str) : M specs :=
  ret (extract_specs_from_text text).

End Fetch.

(** *** The page: manual values and merge *)

(** The values of the manual form. *)
Module Form.
Record t : Type := mk {
  consumption : float;
  cooling_power : float;
  inverter : str;
  energy_class : str
}.
End Form.

(** Truth value of [None] or a float. *)
Definition truthy_opt (v : option float) : bool :=
  match v with
  | Some x => truthy x
  | None => false
  end.

(** Lines 140 to 144: what is kept of the result of the search. *)
Definition keep_specs (found : option specs) : option specs :=
  match found with
  | Some s =>
      if truthy_opt (consumption_w s) && truthy_opt (cooling_w s)
      then Some s else None
  | None => None
  end.

(** Lines 134 to 144, given whether the button was pressed, the model name
    typed and what [fetch_product_specs] returns for it. *)
Definition search_step (pressed : bool) (model_name : str)
           (fetched : option specs) : option specs :=
  if pressed then
    match model_name with
    | _ :: _ => keep_specs fetched
    | [] => None
    end
  else None.

(** What the page shows: consumption, cooling power, energy class. *)
Record shown : Type := mkShown {
  final_consumption : option float;
  final_cooling : option float;
  efficiency : option str
}.

(** Lines 147 to 158: nothing is shown when there is no kept result and both
    manual powers are zero. *)
Definition merge (kept : option specs) (form : Form.t) : option shown :=
  match kept with
  | Some s =>
      Some (mkShown (consumption_w s) (cooling_w s) (energy_class s))
  | None =>
      if truthy (Form.consumption form) || truthy (Form.cooling_power form)
      then Some (mkShown (Some (Form.consumption form))
                         (Some (Form.cooling_power form))
                         (Some (Form.energy_class form)))
      else None
  end.

(** *** The interface of the specification *)

(** The converter of the specification takes the number and the unit token
    apart; the program hands both to [parse_power_value] as one string, the
    number first. *)
Definition convert (number unit : str) : option float :=
  parse_power_value (number ++ unit).

(** The sample text of the end-to-end example. *)
Definition sample_text : str :=
  py "Puissance absorbée: 900W, Puissance frigorifique: 3.5kW, Non-Inverter, Classe énergétique: A++".

(** The merge of one field as the specification words it: the automatic
    value when there is an automatic result and this field of it is there,
    the manual value otherwise. *)
Definition merge_field_spec {A : Type} (auto : option specs)
           (field : specs -> option A) (manual : A) : A :=
  match auto with
  | Some s =>
      match field s with
      | Some v => v
      | None => manual
      end
  | None => manual
  end.

(** A class as the specification words it: one capital letter from A to G
    and at most three "+" after it. *)
Definition canonical_class (c : str) : bool :=
  match c with
  | l :: ps => in_range 65 71 l && forallb plus_sign ps
               && Nat.leb (List.length ps) 3
  | [] => false
  end.

(** What the program returns for a class: a letter from A to G in either
    case and any number of "+" after it. *)
Definition class_shape (c : str) : bool :=
  match c with
  | l :: ps => class_letter l && forallb plus_sign ps
  | [] => false
  end.

(** The number of "." and "," in a string. *)
Definition separators (v : str) : nat :=
  List.length (filter (fun c => (c =? 46) || (c =? 44)) v).

(** No number followed by a known unit occurs anywhere in the text. *)
Definition no_power_token (s : str) : Prop :=
  forall a w b g, s = a ++ w ++ b -> ~ sem power_re w [] g.

(** The number of "." in a string. *)
Definition dots (v : str) : nat :=
  List.length (filter (fun c => c =? 46) v).

(** A class in lower case: a letter from a to g and "+" signs. *)
Definition lower_class (c : str) : bool :=
  match c with
  | l :: ps => in_range 97 103 l && forallb plus_sign ps
  | [] => false
  end.

(** No label followed by a class occurs anywhere in the text. *)
Definition no_class_token (s : str) : Prop :=
  forall a w b g, s = a ++ w ++ b -> ~ sem class_re w [] g.

(** The float [x] is exactly the rational [q]. *)
Definition exactly (x : float) (q : Q) : Prop :=
  match to_Q x with
  | Some q' => Qeq q' q
  | None => False
  end.

(** The float [x] lies strictly between the rationals [lo] and [hi]. *)
Definition between (lo hi : Q) (x : float) : Prop :=
  match to_Q x with
  | Some q => Qlt lo q /\ Qlt q hi
  | None => False
  end.

(** The word [w], given in lower case, occurs in [t] when case is ignored:
    some substring of [t] is [w] once lower-cased. *)
Definition occurs_ignoring_case (w t : str) : Prop :=
  exists a m b, t = a ++ m ++ b /\ lower m = w.

(** What the page shows when only the manual values are used. *)
Definition manual_shown (form : Form.t) : shown :=
  mkShown (Some (Form.consumption form)) (Some (Form.cooling_power form))
          (Some (Form.energy_class form)).

(** What the page shows when the automatic result is used. *)
Definition auto_shown (s : specs) : shown :=
  mkShown (consumption_w s) (cooling_w s) (energy_class s).

(** Both powers of an automatic result are present and not zero. *)
Definition both_powers (s : specs) : Prop :=
  exists c k, consumption_w s = Some c /\ cooling_w s = Some k
              /\ truthy c = true /\ truthy k = true.

(** A decimal digit or ".". *)
Definition digit_dot (c : char) : bool := is_digit c || (c =? 46).

(** A pattern without capture groups. *)
Fixpoint group_free (r : regex) : bool :=
  match r with
  | Cat r1 r2 | Alt r1 r2 => group_free r1 && group_free r2
  | Group _ _ => false
  | _ => true
  end.

(** *** The simulation *)

(** [x / y] on floats. *)
Definition float_div (x y : float) : float := SFdiv prec emax x y.

(** [0.0 < x]. *)
Definition positive_float (x : float) : bool := SFltb (S754_zero false) x.

(** What the page computes: the daily and monthly energy in kWh, the cost
    in euros, and the load of each of the 24 hours of the day. *)
Record simulation : Type := mkSimulation {
  daily : float;
  monthly : float;
  cost : float;
  chart : list number
}.

(** Lines 165 to 186, given the consumption shown, the hours of use per
    day (a slider from 0 to 24) and the days of use per month (from 1 to
    31): [None] is the branch that only warns. *)
Definition simulate (power : option float) (usage_hours days : Z)
  : option simulation :=
  match power with
  | Some c =>
      if truthy c && (0 <? usage_hours)%Z then
        let daily :=
          float_div (float_times c (PyInt usage_hours)) (of_int 1000) in
        let monthly := float_times daily (PyInt days) in
        let cost := mul monthly (of_decimal 18 2) in
        Some (mkSimulation daily monthly cost
                (List.map
                   (fun h => if (Z.of_nat h <? usage_hours)%Z
                             then PyFloat (float_div c (of_int 1000))
                             else PyInt 0)
                   (seq 0 24)))
      else None
  | None => None
  end.

(** A positive finite float. *)
Definition positive_finite (x : float) : bool :=
  match x with
  | S754_finite false _ _ => true
  | _ => false
  end.

(** An entry of the chart that is zero or a float that is at least zero. *)
Definition chart_entry_ok (n : number) : bool :=
  match n with
  | PyInt k => (k =? 0)%Z
  | PyFloat x => plus_signed x
  end.

(** An hour of the chart that carries the load. *)
Definition loaded (n : number) : bool :=
  match n with
  | PyInt _ => false
  | PyFloat _ => true
  end.

(** *** Reading a run *)

(** The requests of a trace, in order: address and time limit. *)
Fixpoint requests (t : list event) : list (str * option Z) :=
  match t with
  | [] => []
  | Get url timeout :: t' => (url, timeout) :: requests t'
  | Enter _ :: t' => requests t'
  end.

(** *** Renaming characters *)

(** The character map of [replace(',', '.')]. *)
Definition comma_to_dot (c : char) : char := if c =? 44 then 46 else c.

(** A map of characters applied to the groups of a match. *)
Definition map_groups (f : char -> char) (g : groups) : groups :=
  List.map (fun nw => (fst nw, List.map f (snd nw))) g.

(** The pattern [r] cannot tell a character from its image by [f]. *)
Fixpoint respects (f : char -> char) (r : regex) : Prop :=
  match r with
  | Eps => True
  | Lit p => forall c, ci_eq p (f c) = ci_eq p c
  | Class g | Star g => forall c, g (f c) = g c
  | Cat r1 r2 | Alt r1 r2 => respects f r1 /\ respects f r2
  | Group _ r' => respects f r'
  end.

(** *** Two example networks *)

(** Every request with a time limit fails; the plain request returns a
    page whose result block is the sample text. *)
Definition html_only_get (_ : str) (timeout : option Z) (w : unit)
  : result response * unit :=
  match timeout with
  | Some _ => (inl OtherError, w)
  | None => (inr (mkResponse sample_text []), w)
  end.

(** The first request is interrupted. *)
Definition interrupted_get (_ : str) (_ : option Z) (w : unit)
  : result response * unit :=
  (inl Interrupt, w).

(** Every request succeeds; the result page has a link to the search
    engine and a link to a data sheet, whose text is the sample text. *)
Definition open_get (_ : str) (_ : option Z) (w : unit)
  : result response * unit :=
  (inr (mkResponse (py "page") [37; 80; 68; 70]), w).

Definition example_links : list str :=
  [py "https://www.google.com/url?q=sheet.pdf";
   py "https://maker.example/specs.html";
   py "https://maker.example/FTXS35K.PDF"].

(** *** Labels *)

(** The repetition of the set [f] takes nothing of [b]: [b] is empty or
    starts outside [f]. *)
Definition stops (f : char -> bool) (b : str) : Prop :=
  match b with
  | [] => True
  | c :: _ => f c = false
  end.

(** The pattern [r] reads the word [label] at the head of any text. *)
Definition label_matches (r : regex) (label : str) : Prop :=
  forall rest g (k : str -> groups -> option groups) x,
    k rest g = Some x -> matchk r (label ++ rest) g k = Some x.

(** The labels of the two powers. *)
Definition consumption_labels : list str :=
  [py "consommation"; py "puissance absorbée"; py "power consumption"].

Definition cooling_labels : list str :=
  [py "puissance frigorifique"; py "cooling capacity"; py "capacity"].

(** A character that starts no label: neither "c" nor "p" in any case. *)
Definition starts_no_label (x : char) : bool :=
  negb (ci_eq 99 x) && negb (ci_eq 112 x).

(** The alternatives of a label group. *)
Definition consumption_label_re : regex :=
  Alt (Str (py "consommation"))
      (Alt (Str (py "puissance absorbée")) (Str (py "power consumption"))).

Definition cooling_label_re : regex :=
  Alt (Str (py "puissance frigorifique"))
      (Alt (Str (py "cooling capacity")) (Str (py "capacity"))).

(** The characters that [lower] changes. *)
Definition cased : list char :=
  List.map N.of_nat (seq 65 26 ++ seq 192 31) ++ [304; 8490].

Definition class_labels : list str :=
  [py "classe énergétique"; py "energy class"].

Definition class_label_re : regex :=
  Alt (Str (py "classe énergétique")) (Str (py "energy class")).

(** A character that starts no class label: neither "c" nor "e" in any
    case. *)
Definition starts_no_class_label (x : char) : bool :=
  negb (ci_eq 99 x) && negb (ci_eq 101 x).

(** *** Proof steps *)

(** Inversion of a hypothesis, with the equations it gives substituted. *)
Ltac inv H := inversion H; subst; clear H.

(** Case analysis on every comparison of code points in sight. *)
Ltac split_compare :=
  repeat match goal with
    | H : context [N.leb ?a ?b] |- _ => destruct (N.leb_spec a b)
    | H : context [N.eqb ?a ?b] |- _ => destruct (N.eqb_spec a b)
    | |- context [N.leb ?a ?b] => destruct (N.leb_spec a b)
    | |- context [N.eqb ?a ?b] => destruct (N.eqb_spec a b)
    end;
  simpl in *; try discriminate; try lia.

(** The requests of a trace built by appending, flattened. *)
Ltac flatten_requests lemma :=
  rewrite ?lemma; simpl; rewrite ?app_nil_r, <- ?app_assoc; simpl.

(** The literals of the goal, as lists of code points. *)
Ltac eval_py :=
  repeat match goal with
    | |- context [py ?s] =>
        let l := eval vm_compute in (py s) in change (py s) with l
    end.

(** The result of a continuation, under the match of an alternative. *)
(** Evaluation of the comparisons of two given characters. *)
Ltac use_result H :=
  first
    [ exact H
    | match goal with
      | |- match ?t with Some _ => _ | None => _ end = Some ?x =>
          let E := fresh in
          assert (E : t = Some x) by exact H; rewrite E; reflexivity
      end ].

Ltac eval_tests :=
  repeat match goal with
    | |- context [ci_eq ?p ?c] =>
        let b := eval vm_compute in (ci_eq p c) in
        change (ci_eq p c) with b
    end;
  cbv iota.

(** * Properties *)

Unset Implicit Arguments.

(** ** The matcher *)

Section MatcherFacts.
Variable A : Type.

Lemma star_sound (f : char -> bool) (s : str) (k : str -> option A) x :
  star f s k = Some x ->
  exists w s', s = w ++ s' /\ forallb f w = true /\ k s' = Some x.
Proof.
  induction s as [|c s IH]; simpl; intros H.
  - exists [], []. auto.
  - destruct (f c) eqn:Hc.
    + destruct (star f s k) as [y|] eqn:Hs.
      * inversion H; subst y.
        destruct (IH eq_refl) as (w & s' & -> & Hw & Hk).
        exists (c :: w), s'. simpl. rewrite Hc, Hw. auto.
      * exists [], (c :: s). auto.
    + exists [], (c :: s). auto.
Qed.

Lemma star_complete (f : char -> bool) (s : str) (k : str -> option A) :
  star f s k = None ->
  forall w s', s = w ++ s' -> forallb f w = true -> k s' = None.
Proof.
  induction s as [|c s IH]; simpl; intros H w s' E Hw.
  - destruct w; [|discriminate]. simpl in E. subst s'. exact H.
  - destruct w as [|c' w]; simpl in E.
    + subst s'. destruct (f c); [|exact H].
      destruct (star f s k); [discriminate|exact H].
    + inversion E; subst c' s. simpl in Hw.
      apply andb_prop in Hw. destruct Hw as [Hc Hw]. rewrite Hc in H.
      destruct (star f (w ++ s') k) eqn:Hs; [discriminate|].
      eapply IH; eauto.
Qed.

Lemma firstn_consumed (w s' : str) :
  firstn (List.length (w ++ s') - List.length s') (w ++ s') = w.
Proof.
  rewrite length_app.
  replace (List.length w + List.length s' - List.length s')%nat
    with (List.length w + 0)%nat by lia.
  rewrite firstn_app_2. simpl. apply app_nil_r.
Qed.

Lemma matchk_sound (r : regex) :
  forall s g (k : str -> groups -> option A) x,
    matchk r s g k = Some x ->
    exists w s' g', s = w ++ s' /\ sem r w g g' /\ k s' g' = Some x.
Proof.
  induction r as [|p|f|r1 IH1 r2 IH2|r1 IH1 r2 IH2|f|n r IH];
    simpl; intros s g k x H.
  - exists [], s, g. repeat split; auto. constructor.
  - destruct s as [|c s]; [discriminate|].
    destruct (ci_eq p c) eqn:Hc; [|discriminate].
    exists [c], s, g. repeat split; auto. constructor; auto.
  - destruct s as [|c s]; [discriminate|].
    destruct (f c) eqn:Hc; [|discriminate].
    exists [c], s, g. repeat split; auto. constructor; auto.
  - apply IH1 in H. destruct H as (w1 & s1 & g1 & -> & S1 & H).
    apply IH2 in H. destruct H as (w2 & s2 & g2 & -> & S2 & H).
    exists (w1 ++ w2), s2, g2. rewrite app_assoc.
    repeat split; auto. econstructor; eauto.
  - destruct (matchk r1 s g k) as [y|] eqn:H1.
    + inversion H; subst y. apply IH1 in H1.
      destruct H1 as (w & s' & g' & -> & S1 & H1).
      exists w, s', g'. repeat split; auto. apply sem_alt_l; auto.
    + apply IH2 in H. destruct H as (w & s' & g' & -> & S2 & H).
      exists w, s', g'. repeat split; auto. apply sem_alt_r; auto.
  - apply star_sound in H. destruct H as (w & s' & -> & Hw & H).
    exists w, s', g. repeat split; auto. constructor; auto.
  - apply IH in H. destruct H as (w & s' & g' & -> & S1 & H).
    rewrite firstn_consumed in H.
    exists w, s', ((n, w) :: g'). repeat split; auto. constructor; auto.
Qed.

Lemma matchk_complete (r : regex) :
  forall w g g', sem r w g g' ->
  forall s' (k : str -> groups -> option A),
    matchk r (w ++ s') g k = None -> k s' g' = None.
Proof.
  intros w g g' S.
  induction S as [g|p c g Hc|f c g Hc|r1 r2 w1 w2 g g1 g2 S1 IH1 S2 IH2
                 |r1 r2 w g g' S IH|r1 r2 w g g' S IH|f w g Hw
                 |n r w g g' S IH];
    simpl; intros s' k Hm.
  - exact Hm.
  - rewrite Hc in Hm. exact Hm.
  - rewrite Hc in Hm. exact Hm.
  - rewrite <- app_assoc in Hm. apply IH1 in Hm.
    apply IH2 in Hm. exact Hm.
  - destruct (matchk r1 (w ++ s') g k) eqn:H1; [discriminate|].
    apply IH; auto.
  - destruct (matchk r1 (w ++ s') g k) eqn:H1; [discriminate|].
    apply IH; auto.
  - eapply star_complete in Hm; eauto.
  - apply IH in Hm. rewrite firstn_consumed in Hm. exact Hm.
Qed.
End MatcherFacts.

Lemma match_at_sound r s g :
  match_at r s = Some g -> exists w s', s = w ++ s' /\ sem r w [] g.
Proof.
  unfold match_at. intros H. apply matchk_sound in H.
  destruct H as (w & s' & g' & -> & S & H). inversion H; subst g'.
  exists w, s'. auto.
Qed.

Lemma match_at_complete r w s' g :
  sem r w [] g -> match_at r (w ++ s') <> None.
Proof.
  unfold match_at. intros S H.
  eapply matchk_complete in H; eauto. discriminate.
Qed.

(** A successful search has found a word of the pattern in the text. *)
Lemma search_sound r s g :
  search r s = Some g ->
  exists a w b, s = a ++ w ++ b /\ sem r w [] g.
Proof.
  induction s as [|c s IH]; simpl; intros H.
  - destruct (match_at r []) eqn:Hm; [|discriminate].
    inversion H; subst g0. apply match_at_sound in Hm.
    destruct Hm as (w & s' & E & S). exists [], w, s'. auto.
  - destruct (match_at r (c :: s)) eqn:Hm.
    + inversion H; subst g0. apply match_at_sound in Hm.
      destruct Hm as (w & s' & E & S). exists [], w, s'. auto.
    + destruct (IH H) as (a & w & b & -> & S).
      exists (c :: a), w, b. auto.
Qed.

(** A search fails only when no word of the pattern occurs in the text. *)
Lemma search_complete r a w b g :
  sem r w [] g -> search r (a ++ w ++ b) <> None.
Proof.
  intros S. induction a as [|c a IH]; simpl.
  - pose proof (match_at_complete r w b g S) as Hm.
    destruct (w ++ b) as [|c s] eqn:E; simpl;
      destruct (match_at r _); congruence.
  - destruct (match_at r (c :: a ++ w ++ b)); [discriminate|exact IH].
Qed.

(** ** Floats: sign of the results *)

Lemma plus_signed_nonneg x : plus_signed x = true -> nonneg x = true.
Proof. destruct x as [[|]|[|]| |[|] m e]; simpl; try discriminate; auto. Qed.

Section Rounding.
Variables p e : Z.

Lemma shr_1_nonneg mrs : (0 <= shr_m mrs)%Z -> (0 <= shr_m (shr_1 mrs))%Z.
Proof.
  destruct mrs as [m r s]. simpl.
  destruct m as [|[q|q|]|q]; simpl; intros H; try lia.
Qed.

Lemma iter_shr_1_nonneg n : forall mrs,
  (0 <= shr_m mrs)%Z -> (0 <= shr_m (iter_pos shr_1 n mrs))%Z.
Proof.
  induction n as [n IH|n IH|]; simpl; intros mrs H.
  - apply IH, IH, shr_1_nonneg, H.
  - apply IH, IH, H.
  - apply shr_1_nonneg, H.
Qed.

Lemma shr_nonneg mrs x n :
  (0 <= shr_m mrs)%Z -> (0 <= shr_m (fst (shr mrs x n)))%Z.
Proof.
  intros H. destruct n; simpl; auto. apply iter_shr_1_nonneg, H.
Qed.

Lemma shr_fexp_nonneg m x l :
  (0 <= m)%Z -> (0 <= shr_m (fst (shr_fexp p e m x l)))%Z.
Proof.
  intros H. unfold shr_fexp. apply shr_nonneg.
  destruct l as [|[| |]]; simpl; exact H.
Qed.

Lemma round_nearest_even_nonneg m l :
  (0 <= m)%Z -> (0 <= round_nearest_even m l)%Z.
Proof.
  intros H. destruct l as [|[| |]]; simpl; try lia.
  destruct (Z.even m); lia.
Qed.

(** Rounding a magnitude with a clear sign bit never gives NaN or a
    negative float. *)
Lemma binary_round_aux_plus m x l :
  (0 <= m)%Z -> plus_signed (binary_round_aux p e false m x l) = true.
Proof.
  intros H. unfold binary_round_aux.
  pose proof (shr_fexp_nonneg m x l H) as H1.
  destruct (shr_fexp p e m x l) as [mrs' e']. simpl in H1.
  pose proof (round_nearest_even_nonneg _ (loc_of_shr_record mrs') H1) as H2.
  pose proof (shr_fexp_nonneg _ e' loc_Exact H2) as H3.
  destruct (shr_fexp p e _ e' loc_Exact) as [mrs'' e'']. simpl in H3.
  destruct (shr_m mrs'') as [|q|q]; simpl.
  - reflexivity.
  - destruct (Z.leb e'' (e - p)); reflexivity.
  - lia.
Qed.

Lemma SFdiv_plus (m1 m2 : positive) x1 x2 :
  plus_signed
    (SFdiv p e (S754_finite false m1 x1) (S754_finite false m2 x2)) = true.
Proof.
  unfold SFdiv, SFdiv_core_binary.
  set (s := (x1 - x2 - _)%Z).
  set (m' := match s with Z0 => _ | Zpos _ => _ | Zneg _ => _ end).
  assert (Hm : (0 <= m')%Z).
  { unfold m'. destruct s; try lia. apply Z.shiftl_nonneg. lia. }
  pose proof (Z.div_pos m' (Zpos m2) Hm ltac:(lia)) as Hq.
  unfold Z.div in Hq.
  destruct (Z.div_eucl m' (Zpos m2)) as [q r]. simpl in Hq.
  apply binary_round_aux_plus, Hq.
Qed.

Lemma SFmul_plus x (m : positive) x2 :
  plus_signed x = true ->
  plus_signed (SFmul p e x (S754_finite false m x2)) = true.
Proof.
  destruct x as [[|]|[|]| |[|] m1 x1]; simpl; try discriminate; auto.
  intros _. apply binary_round_aux_plus. lia.
Qed.
End Rounding.

Lemma of_decimal_plus n k : (0 <= n)%Z -> plus_signed (of_decimal n k) = true.
Proof.
  intros H. unfold of_decimal.
  assert (Hk : (0 < 10 ^ Z.of_nat k)%Z) by (apply Z.pow_pos_nonneg; lia).
  destruct (10 ^ Z.of_nat k)%Z as [|q|q]; try lia.
  destruct n as [|m|m]; try lia; simpl of_Z_exact.
  - reflexivity.
  - apply SFdiv_plus.
Qed.

Lemma read_digits_nonneg s : forall acc n,
  (0 <= acc)%Z -> read_digits acc s = Some n -> (0 <= n)%Z.
Proof.
  induction s as [|c s IH]; simpl; intros acc n Ha H.
  - inversion H. lia.
  - destruct (digit_value c) as [d|]; [|discriminate].
    apply (IH (10 * acc + Z.of_N d)%Z n); [|exact H].
    pose proof (N2Z.is_nonneg d). lia.
Qed.

Lemma float_of_str_plus s x :
  float_of_str s = inr x -> plus_signed x = true.
Proof.
  unfold float_of_str. destruct (split_dot s) as [ip [fp|]].
  - destruct (ip ++ fp) as [|c l] eqn:E; [discriminate|].
    destruct (read_digits 0 (c :: l)) as [n|] eqn:R; [|discriminate].
    intros H. inversion H. apply of_decimal_plus.
    eapply read_digits_nonneg; [|exact R]. lia.
  - destruct ip as [|c l]; [discriminate|].
    destruct (read_digits 0 (c :: l)) as [n|] eqn:R; [|discriminate].
    intros H. inversion H. apply of_decimal_plus.
    eapply read_digits_nonneg; [|exact R]. lia.
Qed.

(** Every factor of [conversions] is a positive finite number. *)
Lemma conversions_positive key c x :
  getitem conversions key = inr c -> plus_signed x = true ->
  plus_signed (float_times x c) = true.
Proof.
  unfold conversions. simpl.
  destruct (str_eqb _ key);
    [|destruct (str_eqb _ key); [|destruct (str_eqb _ key); [|discriminate]]];
    intros H Hx; inversion H; subst c; simpl; unfold mul.
  - change (of_int 1) with (S754_finite false 4503599627370496 (-52)).
    apply SFmul_plus, Hx.
  - change (of_int 1000) with (S754_finite false 8796093022208000 (-43)).
    apply SFmul_plus, Hx.
  - change (of_decimal 29307107 8)
      with (S754_finite false 5279499046580290 (-54)).
    apply SFmul_plus, Hx.
Qed.

(** ** Literal words and case *)

Lemma ci_eq_lower p c :
  ci_eq p c = true -> in_range 97 122 p = true ->
  p <> 105 -> p <> 115 -> lower_char c = [p].
Proof.
  unfold ci_eq, simple_lower, lower_char, in_range. intros H R Hi Hs.
  split_compare; try (f_equal; lia); try reflexivity.
Qed.

Lemma sem_Str w : forall x g g',
  sem (Str w) x g g' ->
  g' = g /\ Forall2 (fun p c => ci_eq p c = true) w x.
Proof.
  induction w as [|p [|q w] IH]; intros x g g' S.
  - inv S. auto.
  - inv S. auto.
  - change (Str (p :: q :: w)) with (Cat (Lit p) (Str (q :: w))) in S.
    inv S. match goal with H : sem (Lit _) _ _ _ |- _ => inv H end.
    match goal with
    | H : sem ?r _ _ _ |- _ =>
        change r with (Str (q :: w)) in H; apply IH in H;
        destruct H as [-> F]
    end.
    split; auto. simpl. constructor; auto.
Qed.

Lemma lower_of_word w x :
  Forall2 (fun p c => ci_eq p c = true) w x ->
  Forall (fun p => in_range 97 122 p = true /\ p <> 105 /\ p <> 115) w ->
  lower x = w.
Proof.
  induction 1 as [|p c w x Hc F IH]; intros HW; [reflexivity|].
  inv HW. destruct H1 as (R & Hi & Hs).
  unfold lower. simpl. rewrite (ci_eq_lower p c Hc R Hi Hs). simpl.
  f_equal. apply IH; auto.
Qed.

Lemma sem_plain_word w u g g' :
  sem (Str w) u g g' ->
  Forall (fun p => in_range 97 122 p = true /\ p <> 105 /\ p <> 115) w ->
  g' = g /\ lower u = w.
Proof.
  intros S F. apply sem_Str in S. destruct S as [-> F2].
  split; auto. apply lower_of_word; auto.
Qed.

(** The unit a pattern captures is, once lower-cased, a key of
    [conversions]. *)
Lemma sem_unit_group n u g g' :
  sem (unit_group n) u g g' ->
  g' = (n, u) :: g /\
  (lower u = py "w" \/ lower u = py "kw" \/ lower u = py "btu").
Proof.
  unfold unit_group. intros S. inv S.
  repeat match goal with
         | H : sem (Alt _ _) _ _ _ |- _ => inv H
         end;
    match goal with
    | H : sem ?r _ _ _ |- _ =>
        first [ change r with (Str (py "w")) in H
              | change r with (Str (py "kw")) in H
              | change r with (Str (py "btu")) in H ];
        apply sem_plain_word in H;
        [destruct H as [-> E]; auto
        |repeat constructor; discriminate]
    end.
Qed.

Lemma unit_is_key u :
  lower u = py "w" \/ lower u = py "kw" \/ lower u = py "btu" ->
  exists c, getitem conversions (lower u) = inr c.
Proof.
  intros [E|[E|E]]; rewrite E; eexists; reflexivity.
Qed.

(** ** Taking a match apart *)

Lemma sem_Cat_inv r1 r2 w g g' :
  sem (Cat r1 r2) w g g' ->
  exists w1 w2 g1, w = w1 ++ w2 /\ sem r1 w1 g g1 /\ sem r2 w2 g1 g'.
Proof. intros S. inversion S; subst. eauto 6. Qed.

Lemma sem_Group_inv n r w g g' :
  sem (Group n r) w g g' -> exists g1, g' = (n, w) :: g1 /\ sem r w g g1.
Proof. intros S. inversion S; subst. eauto. Qed.

Lemma sem_Star_inv f w g g' :
  sem (Star f) w g g' -> g' = g /\ forallb f w = true.
Proof. intros S. inversion S; subst. auto. Qed.

Lemma sem_Class_inv f w g g' :
  sem (Class f) w g g' -> exists c, w = [c] /\ g' = g /\ f c = true.
Proof. intros S. inversion S; subst. eauto. Qed.

Lemma sem_Plus_inv f w g g' :
  sem (Plus f) w g g' ->
  exists c v, w = c :: v /\ g' = g /\ f c = true /\ forallb f v = true.
Proof.
  unfold Plus. intros S.
  apply sem_Cat_inv in S. destruct S as (w1 & w2 & g1 & -> & S1 & S2).
  apply sem_Class_inv in S1. destruct S1 as (c & -> & -> & Hc).
  apply sem_Star_inv in S2. destruct S2 as (-> & Hv).
  exists c, w2. auto.
Qed.

Lemma sem_group_free r w g g' :
  sem r w g g' -> group_free r = true -> g' = g.
Proof.
  induction 1; simpl; intros F; auto; try discriminate;
    apply andb_prop in F; destruct F as [F1 F2]; auto.
  rewrite IHsem2, IHsem1; auto.
Qed.

(** What a match of the pattern of [parse_power_value] has captured: a
    number that starts with a digit and goes on with digits, "." and ",",
    and a unit that is a key of [conversions] up to case. *)
Lemma power_token w g0 g :
  sem power_re w g0 g ->
  exists d v u,
    g = (2%nat, u) :: (1%nat, d :: v) :: g0 /\
    is_digit d = true /\ forallb digit_dot_comma v = true /\
    (lower u = py "w" \/ lower u = py "kw" \/ lower u = py "btu").
Proof.
  unfold power_re. intros S.
  apply sem_Cat_inv in S. destruct S as (w1 & w2 & g1 & -> & S1 & S).
  apply sem_Group_inv in S1. destruct S1 as (g2 & -> & S1).
  apply sem_Cat_inv in S1. destruct S1 as (a & b & g3 & -> & Sa & Sb).
  apply sem_Plus_inv in Sa. destruct Sa as (d & v & -> & -> & Hd & Hv).
  apply sem_Star_inv in Sb. destruct Sb as (-> & Hb).
  apply sem_Cat_inv in S. destruct S as (w3 & w4 & g4 & -> & S3 & S).
  apply sem_Star_inv in S3. destruct S3 as (-> & _).
  apply sem_Cat_inv in S. destruct S as (u & w5 & g5 & -> & Su & S).
  apply sem_unit_group in Su. destruct Su as (-> & Hu).
  apply sem_group_free in S; [|reflexivity]. subst g.
  exists d, (v ++ b), u. repeat split; auto.
  rewrite forallb_app, Hb, andb_true_r.
  clear - Hv. induction v as [|c v IH]; simpl in *; auto.
  apply andb_prop in Hv. destruct Hv as [Hc Hv].
  unfold digit_dot_comma at 1. rewrite Hc, IH; auto.
Qed.

Lemma search_power_token s m :
  search power_re s = Some m ->
  exists d v u,
    m = [(2%nat, u); (1%nat, d :: v)] /\
    is_digit d = true /\ forallb digit_dot_comma v = true /\
    (lower u = py "w" \/ lower u = py "kw" \/ lower u = py "btu").
Proof.
  intros H. apply search_sound in H. destruct H as (a & w & b & _ & S).
  apply power_token in S. exact S.
Qed.

Lemma search_power_none s :
  search power_re s = None <-> no_power_token s.
Proof.
  split.
  - intros H a w b g -> S. revert H. apply search_complete with (g := g), S.
  - intros H. destruct (search power_re s) as [m|] eqn:E; auto.
    apply search_sound in E. destruct E as (a & w & b & E & S).
    exfalso. exact (H a w b m E S).
Qed.

(** ** Reading a decimal number *)

Lemma is_digit_not_sep c : is_digit c = true -> c <> 46 /\ c <> 44.
Proof. intros H. split; intros ->; vm_compute in H; discriminate. Qed.

Lemma read_digits_some s : forall acc,
  forallb is_digit s = true -> exists n, read_digits acc s = Some n.
Proof.
  induction s as [|c s IH]; simpl; intros acc H; eauto.
  apply andb_prop in H. destruct H as [Hc Hs]. unfold is_digit in Hc.
  destruct (digit_value c); [|discriminate]. apply IH, Hs.
Qed.

Lemma read_digits_none s : forall acc,
  forallb is_digit s = false -> read_digits acc s = None.
Proof.
  induction s as [|c s IH]; simpl; intros acc H; [discriminate|].
  unfold is_digit in H. destruct (digit_value c); auto.
Qed.

Lemma dots_app a b : dots (a ++ b) = (dots a + dots b)%nat.
Proof. unfold dots. rewrite filter_app, length_app. reflexivity. Qed.

Lemma no_dots_digits s :
  forallb digit_dot s = true -> dots s = 0%nat -> forallb is_digit s = true.
Proof.
  induction s as [|c s IH]; simpl; auto. intros H D.
  apply andb_prop in H. destruct H as [Hc Hs].
  unfold dots in D. simpl in D. unfold digit_dot in Hc.
  destruct (c =? 46); [discriminate|].
  rewrite orb_false_r in Hc. rewrite Hc. apply IH; auto.
Qed.

Lemma digits_no_dots s : forallb is_digit s = true -> dots s = 0%nat.
Proof.
  induction s as [|c s IH]; simpl; auto. intros H.
  apply andb_prop in H. destruct H as [Hc Hs].
  unfold dots. simpl. destruct (N.eqb_spec c 46) as [->|_].
  - vm_compute in Hc. discriminate.
  - apply IH, Hs.
Qed.

Lemma split_dot_spec s :
  dots (fst (split_dot s)) = 0%nat /\
  match snd (split_dot s) with
  | None => s = fst (split_dot s)
  | Some fp => s = fst (split_dot s) ++ 46 :: fp
  end.
Proof.
  induction s as [|c s [D E]]; simpl; auto.
  destruct (N.eqb_spec c 46) as [->|Hc]; simpl; auto.
  destruct (split_dot s) as [ip r]. simpl in *. split.
  - unfold dots in *. simpl. destruct (N.eqb_spec c 46); [contradiction|auto].
  - destruct r; rewrite E at 1; reflexivity.
Qed.

(** On a string of digits and "." that starts with a digit, [float] raises
    exactly when there are two "." or more. *)
Lemma float_of_str_valid d s :
  is_digit d = true -> forallb digit_dot s = true ->
  (dots (d :: s) <= 1 -> exists x, float_of_str (d :: s) = inr x)%nat /\
  (2 <= dots (d :: s) -> float_of_str (d :: s) = inl ValueError)%nat.
Proof.
  intros Hd Hs.
  assert (Hall : forallb digit_dot (d :: s) = true).
  { simpl. unfold digit_dot at 1. rewrite Hd, Hs. reflexivity. }
  destruct (split_dot_spec (d :: s)) as [D E].
  unfold float_of_str. destruct (split_dot (d :: s)) as [ip [fp|]];
    simpl fst in *; simpl snd in *.
  - rewrite E in Hall. rewrite forallb_app in Hall.
    apply andb_prop in Hall. destruct Hall as [Hip Hfp].
    simpl in Hfp. rewrite E, dots_app, D.
    assert (D1 : dots (46 :: fp) = S (dots fp)) by reflexivity.
    rewrite D1.
    destruct ip as [|c ip].
    { simpl in E. inversion E. subst d.
      vm_compute in Hd. discriminate. }
    assert (Hi : forallb is_digit (c :: ip) = true)
      by (apply no_dots_digits; auto).
    simpl app. cbv iota. split; intros L.
    + assert (Hf : forallb is_digit fp = true)
        by (apply no_dots_digits; auto; lia).
      destruct (read_digits_some (c :: ip ++ fp) 0) as [n R].
      { change (c :: ip ++ fp) with ((c :: ip) ++ fp).
        rewrite forallb_app, Hi, Hf. reflexivity. }
      rewrite R. eauto.
    + assert (Hf : forallb is_digit fp = false).
      { destruct (forallb is_digit fp) eqn:F; auto.
        apply digits_no_dots in F. lia. }
      rewrite read_digits_none; auto.
      change (c :: ip ++ fp) with ((c :: ip) ++ fp).
      rewrite forallb_app, Hi, Hf. reflexivity.
  - rewrite <- E in *. rewrite D.
    assert (Hi : forallb is_digit (d :: s) = true)
      by (apply no_dots_digits; auto).
    split; intros L; [|lia].
    destruct (read_digits_some (d :: s) 0 Hi) as [n R].
    rewrite R. eauto.
Qed.

Lemma replace_token d v :
  is_digit d = true -> forallb digit_dot_comma v = true ->
  replace_char 44 46 (d :: v) = d :: replace_char 44 46 v /\
  forallb digit_dot (replace_char 44 46 v) = true /\
  dots (d :: replace_char 44 46 v) = separators (d :: v).
Proof.
  intros Hd Hv. destruct (is_digit_not_sep _ Hd) as [N1 N2].
  assert (E : forall s, forallb digit_dot_comma s = true ->
              forallb digit_dot (replace_char 44 46 s) = true /\
              dots (replace_char 44 46 s) = separators s).
  { induction s as [|c s IH]; simpl; auto. intros H.
    apply andb_prop in H. destruct H as [Hc Hs].
    destruct (IH Hs) as [I1 I2]. unfold dots, separators in *. simpl.
    unfold digit_dot_comma in Hc. unfold digit_dot at 1.
    destruct (N.eqb_spec c 44) as [->|C1]; simpl.
    - rewrite I1, I2. auto.
    - rewrite orb_false_r in *. rewrite Hc, I1. split; auto.
      destruct (c =? 46); simpl; rewrite I2; reflexivity. }
  destruct (E v Hv) as [E1 E2]. repeat split; auto.
  - simpl. destruct (N.eqb_spec d 44); [contradiction|reflexivity].
  - unfold dots, separators in *. simpl.
    destruct (N.eqb_spec d 46); [contradiction|].
    destruct (N.eqb_spec d 44); [contradiction|]. simpl. exact E2.
Qed.

(** ** Power values *)

(** C9. Whenever [parse_power_value] returns a value, the value is a float
    that is at least zero (and so not NaN): a non-negative number of
    watts. *)
Theorem C9_power_value_nonneg (s : str) (v : float) :
  parse_power_value s = Some v -> nonneg v = true /\ v <> S754_nan.
Proof.
  unfold parse_power_value, power_of_groups, bind_result.
  destruct (search power_re s) as [m|]; [|discriminate].
  destruct (float_of_str _) as [e|x] eqn:F; [discriminate|].
  destruct (getitem conversions _) as [e|c] eqn:G; [discriminate|].
  intros H. inversion H; subst v.
  assert (P : plus_signed (float_times x c) = true).
  { eapply conversions_positive; eauto. eapply float_of_str_plus; eauto. }
  split; [apply plus_signed_nonneg, P|].
  intros E. rewrite E in P. discriminate.
Qed.

Lemma C9_power_value_nonneg_witness :
  nonneg (of_int 1500) = true /\ of_int 1500 <> S754_nan.
Proof.
  apply (C9_power_value_nonneg (py "1,5 kW")). vm_compute. reflexivity.
Defined.



(** C5. The conversions of the specification: "1,5" kw is 1500.0, "12000"
    btu is 3516.85 to two decimal places, "500" w is 500.0, and "abc" w and
    "5" lbs give nothing. *)
Theorem C5_unit_converter :
  (exists x, convert (py "1,5") (py "kw") = Some x /\ exactly x 1500)
  /\ (exists x, convert (py "12000") (py "btu") = Some x
                /\ between (3516845 # 1000) (3516855 # 1000) x)
  /\ (exists x, convert (py "500") (py "w") = Some x /\ exactly x 500)
  /\ convert (py "abc") (py "w") = None
  /\ convert (py "5") (py "lbs") = None.
Proof.
  split; [|split; [|split; [|split]]].
  - eexists. split; [vm_compute; reflexivity|]. vm_compute. reflexivity.
  - eexists. split; [vm_compute; reflexivity|].
    split; vm_compute; reflexivity.
  - eexists. split; [vm_compute; reflexivity|]. vm_compute. reflexivity.
  - vm_compute. reflexivity.
  - vm_compute. reflexivity.
Qed.

(** ** Energy class *)

(** What a match of the pattern of [find_energy_class] has captured: the
    class is the end of the matched word, a letter from A to G in either
    case and "+" signs. *)
Lemma class_token w g0 g :
  sem class_re w g0 g ->
  exists label pre l ps,
    g = (2%nat, l :: ps) :: (1%nat, label) :: g0 /\
    w = pre ++ l :: ps /\
    class_letter l = true /\ forallb plus_sign ps = true.
Proof.
  unfold class_re. intros S.
  apply sem_Cat_inv in S. destruct S as (w1 & w2 & g1 & -> & S1 & S).
  apply sem_Group_inv in S1. destruct S1 as (g2 & -> & S1).
  apply sem_group_free in S1; [|reflexivity]. subst g2.
  apply sem_Cat_inv in S. destruct S as (w3 & w4 & g3 & -> & S3 & S).
  apply sem_Star_inv in S3. destruct S3 as (-> & _).
  apply sem_Group_inv in S. destruct S as (g4 & -> & S).
  apply sem_Cat_inv in S. destruct S as (a & ps & g5 & -> & Sa & Sp).
  apply sem_Class_inv in Sa. destruct Sa as (l & -> & -> & Hl).
  apply sem_Star_inv in Sp. destruct Sp as (-> & Hp).
  exists w1, (w1 ++ w3), l, ps. repeat split; auto.
  rewrite <- app_assoc. reflexivity.
Qed.

Lemma search_class_none s :
  search class_re s = None <-> no_class_token s.
Proof.
  split.
  - intros H a w b g -> S. revert H. apply search_complete with (g := g), S.
  - intros H. destruct (search class_re s) as [m|] eqn:E; auto.
    apply search_sound in E. destruct E as (a & w & b & E & S).
    exfalso. exact (H a w b m E S).
Qed.

(** [lower] leaves no capital letter from A to Z behind. *)
Lemma lower_no_capital t c : In c (lower t) -> in_range 65 90 c = false.
Proof.
  unfold lower. rewrite in_flat_map. intros (x & _ & H).
  unfold lower_char, in_range in *.
  split_compare; simpl in H; intuition; subst; split_compare.
Qed.

(** C1. The sample text of the end-to-end example gives a consumption of
    900 W and a cooling power of 3500 W; the inverter field is "Inverter",
    because "Non-Inverter" contains "inverter", and the energy class is
    "a++", in lower case like the text it is read from. *)
Theorem C1_sample_extraction :
  extract_specs_from_text sample_text =
    mkSpecs (Some (of_int 900)) (Some (of_int 3500))
            (Some (py "Inverter")) (Some (py "a++"))
  /\ exactly (of_int 900) 900 /\ exactly (of_int 3500) 3500.
Proof.
  split; [vm_compute; reflexivity|].
  split; vm_compute; reflexivity.
Qed.

(** The extraction of the sample text is not the result the specification
    gives for it. *)
Lemma C1_sample_counterexample :
  extract_specs_from_text sample_text <>
    mkSpecs (Some (of_int 900)) (Some (of_int 3500))
            (Some (py "Non-Inverter")) (Some (py "A++")).
Proof. vm_compute. intros H. discriminate H. Qed.

(** C2. As the program has it: the search for the energy class ignores
    case and returns the class as it is written in the text searched, "a"
    for "energy class a" and "A+++" for "Classe énergétique: A+++"; a
    class is a letter from A to G in either case followed by any number of
    "+" (four in "A++++"); through [extract_specs_from_text], which
    searches the lower-cased text, the letter is in lower case; the class
    is absent exactly when no label followed by a class occurs in the
    text. *)
Theorem C2_energy_class :
  find_energy_class (py "energy class a") = Some (py "a")
  /\ find_energy_class (py "Classe énergétique: A+++") = Some (py "A+++")
  /\ find_energy_class (py "Classe énergétique: A++++") = Some (py "A++++")
  /\ (forall t c, find_energy_class t = Some c -> class_shape c = true)
  /\ (forall t c, energy_class (extract_specs_from_text t) = Some c ->
                  lower_class c = true)
  /\ (forall t, find_energy_class t = None <-> no_class_token t).
Proof.
  assert (Shape : forall t c, find_energy_class t = Some c ->
            class_shape c = true /\ exists a b, t = a ++ c ++ b).
  { unfold find_energy_class. intros t c H.
    destruct (search class_re t) as [m|] eqn:E; [|discriminate].
    inversion H; subst c. clear H.
    apply search_sound in E. destruct E as (a & w & b & -> & S).
    apply class_token in S.
    destruct S as (label & pre & l & ps & -> & -> & Hl & Hp).
    simpl. rewrite Hl, Hp. split; auto.
    exists (a ++ pre), b. rewrite <- !app_assoc. reflexivity. }
  split; [vm_compute; reflexivity|].
  split; [vm_compute; reflexivity|].
  split; [vm_compute; reflexivity|].
  split; [intros t c H; apply (Shape t c H)|].
  split.
  - intros t c H.
    change (energy_class (extract_specs_from_text t))
      with (find_energy_class (lower t)) in H.
    destruct (Shape _ _ H) as (Hs & a & b & E).
    destruct c as [|l ps]; [discriminate|]. simpl in *.
    apply andb_prop in Hs. destruct Hs as [Hl Hp]. rewrite Hp, andb_true_r.
    assert (N : in_range 65 90 l = false).
    { apply (lower_no_capital t). rewrite E. apply in_or_app. right.
      left. reflexivity. }
    unfold class_letter, in_range in *. split_compare.
  - intros t. unfold find_energy_class. rewrite <- search_class_none.
    destruct (search class_re t); split; intros H; congruence.
Qed.

Lemma C2_energy_class_witness :
  class_shape (py "G++") = true.
Proof.
  destruct C2_energy_class as (_ & _ & _ & H & _).
  apply (H (py "Energy Class: G++")). vm_compute. reflexivity.
Defined.

(** The search returns the class as it is written, neither in upper case
    nor cut to three "+". *)
Lemma C2_energy_class_counterexample :
  find_energy_class (py "energy class a") <> Some (py "A")
  /\ (exists c, find_energy_class (py "Classe énergétique: A++++") = Some c
                /\ canonical_class c = false).
Proof.
  split.
  - vm_compute. intros H. discriminate H.
  - eexists. split; vm_compute; reflexivity.
Qed.

(** ** Inverter *)

Lemma startswith_spec a : forall s,
  startswith s a = true <-> exists b, s = a ++ b.
Proof.
  induction a as [|x a IH]; intros s.
  - split; [intros _; exists s; reflexivity|].
    intros _. destruct s; reflexivity.
  - destruct s as [|c s]; simpl.
    + split; [discriminate|]. intros [b E]. discriminate.
    + rewrite andb_true_iff, N.eqb_eq, IH. split.
      * intros [-> [b ->]]. eauto.
      * intros [b E]. inversion E. eauto.
Qed.

Lemma contains_spec a : forall s,
  contains s a = true <-> exists x y, s = x ++ a ++ y.
Proof.
  induction s as [|c s IH].
  - change (contains [] a) with (startswith [] a || false).
    rewrite orb_true_iff, startswith_spec. split.
    + intros [[b E]|H]; [|discriminate]. exists [], b. exact E.
    + intros (x & y & E). left. destruct x; [eauto|discriminate].
  - change (contains (c :: s) a) with (startswith (c :: s) a || contains s a).
    rewrite orb_true_iff, startswith_spec, IH. split.
    + intros [[b E]|(x & y & E)].
      * exists [], b. exact E.
      * exists (c :: x), y. rewrite E. reflexivity.
    + intros (x & y & E). destruct x as [|c' x]; simpl in E.
      * left. eauto.
      * right. inversion E. eauto.
Qed.

Lemma lower_app a b : lower (a ++ b) = lower a ++ lower b.
Proof. apply flat_map_app. Qed.

Lemma lower_char_shape c :
  lower_char c = [105; 775] \/ exists y, lower_char c = [y].
Proof.
  unfold lower_char.
  destruct (in_range 65 90 c); [eauto|].
  destruct (in_range 192 222 c && negb (c =? 215)); [eauto|].
  destruct (c =? 304); [auto|].
  destruct (c =? 8490); eauto.
Qed.

(** A word without "i" at the head of a lower-cased text comes from a
    prefix of the text. *)
Lemma lower_prefix w : forall t b,
  lower t = w ++ b -> ~ In 105 w ->
  exists m b', t = m ++ b' /\ lower m = w.
Proof.
  induction w as [|x w IH]; intros t b E N.
  - exists [], t. auto.
  - destruct t as [|c t]; [discriminate|].
    change (lower (c :: t)) with (lower_char c ++ lower t) in E.
    destruct (lower_char_shape c) as [L|[y L]]; rewrite L in E;
      simpl in E; inversion E; subst.
    + exfalso. apply N. left. reflexivity.
    + destruct (IH t b H1) as (m & b' & -> & Hm).
      { intros I. apply N. right. exact I. }
      exists (c :: m), b'. split; auto.
      change (lower (c :: m)) with (lower_char c ++ lower m).
      rewrite L, Hm. reflexivity.
Qed.

(** "inverter" in the lower-cased text comes from a substring of the text
    itself. *)
Lemma lower_occurrence t : forall a b,
  lower t = a ++ py "inverter" ++ b ->
  occurs_ignoring_case (py "inverter") t.
Proof.
  induction t as [|c t IH]; intros a b E.
  - destruct a; discriminate.
  - change (lower (c :: t)) with (lower_char c ++ lower t) in E.
    destruct (lower_char_shape c) as [L|[y L]]; rewrite L in E.
    + destruct a as [|x [|x' a]]; simpl in E; inversion E.
      destruct (IH a b H2) as (a' & m & b' & -> & Hm).
      exists (c :: a'), m, b'. auto.
    + destruct a as [|x a]; simpl in E; inversion E.
      * destruct (lower_prefix (py "nverter") t b H1) as (m & b' & -> & Hm).
        { vm_compute. intuition discriminate. }
        exists [], (c :: m), b'. split; auto.
        change (lower (c :: m)) with (lower_char c ++ lower m).
        rewrite L, Hm, H0. reflexivity.
      * destruct (IH a b H1) as (a' & m & b' & -> & Hm).
        exists (c :: a'), m, b'. auto.
Qed.

Lemma contains_inverter t :
  contains (lower t) (py "inverter") = true <->
  occurs_ignoring_case (py "inverter") t.
Proof.
  rewrite contains_spec. split.
  - intros (x & y & E). eapply lower_occurrence, E.
  - intros (a & m & b & -> & Hm). exists (lower a), (lower b).
    rewrite !lower_app, Hm. reflexivity.
Qed.

(** C7. For every text the extraction returns its four fields;
    consumption, cooling power and energy class may be [None], the
    inverter field never is: it is "Inverter" when "inverter" occurs in the
    text, case ignored, and "Non-Inverter" when it does not. *)
Theorem C7_inverter_resolved (t : str) :
  exists c k i e,
    extract_specs_from_text t = mkSpecs c k (Some i) e /\
    ((i = py "Inverter" /\ occurs_ignoring_case (py "inverter") t) \/
     (i = py "Non-Inverter" /\ ~ occurs_ignoring_case (py "inverter") t)).
Proof.
  unfold extract_specs_from_text.
  do 4 eexists. split.
  - unfold set_energy_class, set_inverter. simpl. reflexivity.
  - rewrite <- contains_inverter.
    destruct (contains (lower t) (py "inverter")); [left|right]; split;
      auto using diff_false_true.
Qed.

(** ** Purity *)

(** C10. A call of the extraction returns the same result whatever the
    state it runs in and leaves that state as it was, so two calls on the
    same text, one after the other, return identical results. *)
Theorem C10_extract_pure (World : Type) (t : str) (st st2 : state World) :
  let first := call_extract t st in
  let second := call_extract t (snd first) in
  fst first = inr (extract_specs_from_text t)
  /\ fst second = fst first
  /\ snd second = st
  /\ fst (call_extract t st2) = fst first.
Proof. repeat split. Qed.

(** ** The fallback chain *)

Lemma stages_app a b : stages (a ++ b) = stages a ++ stages b.
Proof.
  induction a as [|[s|u t] a IH]; simpl; auto. rewrite IH. reflexivity.
Qed.

Lemma requests_app a b : requests (a ++ b) = requests a ++ requests b.
Proof.
  induction a as [|[s|u t] a IH]; simpl; auto. rewrite IH. reflexivity.
Qed.

(** The head of a filtered list is the first element that passes. *)
Lemma filter_head {A : Type} (f : A -> bool) (l : list A) x rest :
  filter f l = x :: rest ->
  exists l1 l2, l = l1 ++ x :: l2 /\ forallb (fun y => negb (f y)) l1 = true
                /\ f x = true.
Proof.
  induction l as [|y l IH]; simpl; [discriminate|].
  destruct (f y) eqn:Fy; intros H.
  - inversion H; subst y. exists [], l. auto.
  - destruct (IH H) as (l1 & l2 & -> & Hl & Hx).
    exists (y :: l1), l2. simpl. rewrite Fy, Hl. auto.
Qed.

Section FetchFacts.

Variable World : Type.
Variable requests_get : str -> option Z -> World -> result response * World.
Variable quote : str -> str.
Variable hrefs : str -> result (list str).
Variable link_target : str -> result str.
Variable pdf_text : list N -> result str.
Variable search_div_text : str -> result str.

Local Abbreviation pdf := (pdf_search requests_get quote hrefs link_target pdf_text).
Local Abbreviation html := (html_search requests_get quote search_div_text).
Local Abbreviation fetch :=
  (fetch_product_specs requests_get quote hrefs link_target pdf_text
                       search_div_text).

(** The first block enters its stage once, whatever happens in it. *)
Lemma pdf_search_stages model (st : state World) :
  stages (snd (snd (pdf model st))) = stages (snd st) ++ [PDF_SEARCH].
Proof.
  destruct st as [w t].
  unfold pdf_search, bind, enter, get, lift, ret. simpl.
  destruct (requests_get _ _ w) as [[e|r] w1]; simpl;
    rewrite ?stages_app; simpl; rewrite ?app_nil_r; auto.
  destruct (hrefs (text r)) as [e|links]; simpl;
    rewrite ?stages_app; simpl; rewrite ?app_nil_r; auto.
  destruct (filter is_pdf_link links) as [|first l]; simpl;
    rewrite ?stages_app; simpl; rewrite ?app_nil_r; auto.
  destruct (link_target first) as [e|u]; simpl;
    rewrite ?stages_app; simpl; rewrite ?app_nil_r; auto.
  destruct (requests_get u _ w1) as [[e|r2] w2]; simpl;
    rewrite ?stages_app; simpl; rewrite ?app_nil_r; auto.
  destruct (pdf_text (content r2)) as [e|x]; simpl;
    rewrite ?stages_app; simpl; rewrite ?app_nil_r; auto.
Qed.

(** So does the second block. *)
Lemma html_search_stages model (st : state World) :
  stages (snd (snd (html model st))) = stages (snd st) ++ [HTML_SEARCH].
Proof.
  destruct st as [w t].
  unfold html_search, bind, enter, get, lift, ret. simpl.
  destruct (requests_get _ _ w) as [[e|r] w1]; simpl;
    rewrite ?stages_app; simpl; rewrite ?app_nil_r; auto.
  destruct (search_div_text (text r)) as [e|x]; simpl;
    rewrite ?stages_app; simpl; rewrite ?app_nil_r; auto.
Qed.

(** The first block, path by path: it always sends the PDF query; it sends
    a download only for the first link that passes the filter, and it
    returns only the extraction of the text of that download. *)
Lemma pdf_search_run model (st : state World) :
  exists dl,
    requests (snd (snd (pdf model st))) =
      requests (snd st) ++ (pdf_search_url quote model, Some 10%Z) :: dl
    /\ ((dl = [] /\ forall s, fst (pdf model st) <> inr (Some s))
        \/ exists r w1 links first rest u,
             requests_get (pdf_search_url quote model) (Some 10%Z) (fst st)
               = (inr r, w1)
             /\ hrefs (text r) = inr links
             /\ filter is_pdf_link links = first :: rest
             /\ link_target first = inr u
             /\ dl = [(u, Some 15%Z)]
             /\ forall s, fst (pdf model st) = inr (Some s) ->
                  exists r2 doc, fst (requests_get u (Some 15%Z) w1) = inr r2
                                 /\ pdf_text (content r2) = inr doc
                                 /\ s = extract_specs_from_text doc).
Proof.
  destruct st as [w t].
  unfold pdf_search, bind, enter, get, lift, ret. simpl.
  destruct (requests_get _ _ w) as [[e|r] w1] eqn:E1; simpl.
  { exists []. flatten_requests requests_app.
    split; auto. left. split; auto. discriminate. }
  destruct (hrefs (text r)) as [e|links] eqn:E2; simpl.
  { exists []. flatten_requests requests_app.
    split; auto. left. split; auto. discriminate. }
  destruct (filter is_pdf_link links) as [|first rest] eqn:E3; simpl.
  { exists []. flatten_requests requests_app.
    split; auto. left. split; auto. discriminate. }
  destruct (link_target first) as [e|u] eqn:E4; simpl.
  { exists []. flatten_requests requests_app.
    split; auto. left. split; auto. discriminate. }
  exists [(u, Some 15%Z)]. split.
  - destruct (requests_get u _ w1) as [[e|r2] w2]; simpl;
      [|destruct (pdf_text (content r2)); simpl];
      flatten_requests requests_app; reflexivity.
  - right. exists r, w1, links, first, rest, u. repeat split; auto.
    intros s. destruct (requests_get u _ w1) as [[e|r2] w2]; simpl;
      [discriminate|].
    destruct (pdf_text (content r2)) as [e|doc] eqn:E5; simpl;
      [discriminate|].
    intros H. inversion H. exists r2, doc. auto.
Qed.

(** The second block: one plain query, and only extractions returned. *)
Lemma html_search_run model (st : state World) :
  requests (snd (snd (html model st))) =
    requests (snd st) ++ [(html_search_url quote model, None)]
  /\ forall s, fst (html model st) = inr s ->
       exists doc, s = extract_specs_from_text doc.
Proof.
  destruct st as [w t].
  unfold html_search, bind, enter, get, lift, ret. simpl.
  destruct (requests_get _ _ w) as [[e|r] w1]; simpl.
  { flatten_requests requests_app. split; auto. discriminate. }
  destruct (search_div_text (text r)) as [e|doc]; simpl;
    flatten_requests requests_app; split; auto; try discriminate.
  intros s H. inversion H. eauto.
Qed.

(** The three ways a call of the chain ends: the first block returns; the
    first block raises outside [Exception], and the exception leaves the
    function; or the first block is recovered from, and the call is the
    second block with its handler. *)
Lemma fetch_cases model (st : state World) :
  (exists s, fst (pdf model st) = inr (Some s)
             /\ fetch model st = (inr (Some s), snd (pdf model st)))
  \/ (exists e, fst (pdf model st) = inl e /\ is_exception e = false
                /\ fetch model st = (inl e, snd (pdf model st)))
  \/ (pdf_search_recovered requests_get quote hrefs link_target pdf_text
        model st
      /\ fetch model st =
         (match fst (html model (snd (pdf model st))) with
          | inr s => inr (Some s)
          | inl _ => inr None
          end, snd (html model (snd (pdf model st))))).
Proof.
  unfold fetch_product_specs, html_fallback, pdf_search_recovered.
  destruct (pdf model st) as [[e|[s|]] st1]; simpl.
  - destruct (is_exception e) eqn:Ee.
    + right. right. split; [right; exists e; auto|].
      destruct (html model st1) as [[e'|s'] st2]; reflexivity.
    + right. left. exists e. auto.
  - left. eauto.
  - right. right. split; [left; reflexivity|].
    destruct (html model st1) as [[e'|s'] st2]; reflexivity.
Qed.


End FetchFacts.



(** ** Merge of automatic and manual values *)

Lemma keep_specs_spec found s :
  keep_specs found = Some s <-> found = Some s /\ both_powers s.
Proof.
  unfold keep_specs, both_powers. split.
  - destruct found as [s0|]; [|discriminate].
    destruct (consumption_w s0) as [c|] eqn:Ec; simpl; [|discriminate].
    destruct (cooling_w s0) as [k|] eqn:Ek; simpl;
      [|rewrite andb_false_r; discriminate].
    destruct (truthy c) eqn:Tc; simpl; [|discriminate].
    destruct (truthy k) eqn:Tk; simpl; [|discriminate].
    intros H. inversion H; subst s0. split; auto.
    exists c, k. auto.
  - intros [-> (c & k & Ec & Ek & Tc & Tk)].
    rewrite Ec, Ek. simpl. rewrite Tc, Tk. reflexivity.
Qed.

Lemma merge_without_specs form sh :
  merge None form = Some sh -> sh = manual_shown form.
Proof.
  unfold merge, manual_shown.
  destruct (truthy _ || truthy _); [|discriminate].
  intros H. inversion H. reflexivity.
Qed.

(** C8. The automatic result is kept or dropped as a whole.  It is kept
    exactly when the search returned one whose consumption and cooling
    power are both present and not zero, and the button was pressed with a
    model name typed; when it is kept, the page shows its consumption, its
    cooling power and its energy class, and none of the manual values;
    when it is not kept, the page shows the three manual values, energy
    class included, or nothing at all when both manual powers are zero. *)
Theorem C8_all_or_nothing (pressed : bool) (model_name : str)
        (found : option specs) (form : Form.t) :
  (forall s, search_step pressed model_name found = Some s <->
             pressed = true /\ model_name <> [] /\ found = Some s
             /\ both_powers s)
  /\ (forall s, search_step pressed model_name found = Some s ->
        merge (search_step pressed model_name found) form
        = Some (auto_shown s))
  /\ (search_step pressed model_name found = None ->
      merge (search_step pressed model_name found) form
      = if truthy (Form.consumption form) || truthy (Form.cooling_power form)
        then Some (manual_shown form) else None).
Proof.
  split; [|split].
  - intros s. unfold search_step. split.
    + destruct pressed; [|discriminate].
      destruct model_name as [|c n]; [discriminate|].
      rewrite keep_specs_spec. intros [E B].
      repeat split; auto. discriminate.
    + intros (-> & N & E & B). destruct model_name as [|c n]; [congruence|].
      apply keep_specs_spec. auto.
  - intros s E. rewrite E. reflexivity.
  - intros E. rewrite E. reflexivity.
Qed.

Lemma C8_all_or_nothing_witness :
  let dropped := Some (mkSpecs (Some (of_int 0)) (Some (of_int 3500))
                               (Some (py "Inverter")) (Some (py "a++"))) in
  let kept := mkSpecs (Some (of_int 900)) (Some (of_int 3500))
                      (Some (py "Inverter")) (Some (py "a++")) in
  let form := Form.mk (of_int 850) (of_int 2500) (py "Oui") (py "A") in
  merge (search_step true (py "Daikin FTXS35K") dropped) form
  = Some (mkShown (Some (of_int 850)) (Some (of_int 2500)) (Some (py "A")))
  /\ merge (search_step true (py "Daikin FTXS35K") (Some kept)) form
     = Some (mkShown (Some (of_int 900)) (Some (of_int 3500))
                     (Some (py "a++"))).
Proof.
  intros dropped kept form. split.
  - destruct (C8_all_or_nothing true (py "Daikin FTXS35K") dropped form)
      as (_ & _ & H).
    rewrite H; vm_compute; reflexivity.
  - destruct (C8_all_or_nothing true (py "Daikin FTXS35K") (Some kept) form)
      as (_ & H & _).
    rewrite (H kept); vm_compute; reflexivity.
Defined.

(** C3. As the program has it, the merge is not field by field: when the
    result of the search has both powers present and not zero, the page
    shows its consumption, its cooling power and its energy class;
    otherwise it shows the three manual values.  With no automatic
    consumption and a manual consumption of 900, the consumption shown is
    900; with an automatic consumption of 850, an automatic cooling power
    that is present and not zero, and a manual consumption of 900, it is
    850. *)
Theorem C3_merge_whole_result (found : option specs) (form : Form.t) :
  (forall sh, merge (keep_specs found) form = Some sh ->
     (exists s, found = Some s /\ both_powers s /\ sh = auto_shown s)
     \/ ((forall s, found = Some s -> ~ both_powers s)
         /\ sh = manual_shown form))
  /\ (forall s, found = Some s -> consumption_w s = None ->
        Form.consumption form = of_int 900 ->
        exists sh, merge (keep_specs found) form = Some sh
                   /\ final_consumption sh = Some (of_int 900))
  /\ (forall s k, found = Some s -> consumption_w s = Some (of_int 850) ->
        cooling_w s = Some k -> truthy k = true ->
        Form.consumption form = of_int 900 ->
        exists sh, merge (keep_specs found) form = Some sh
                   /\ final_consumption sh = Some (of_int 850)).
Proof.
  split; [|split].
  - intros sh H. destruct (keep_specs found) as [s|] eqn:K.
    + left. exists s. apply keep_specs_spec in K. destruct K as [E B].
      simpl in H. inversion H. auto.
    + right. split; [|apply merge_without_specs, H].
      intros s E B.
      assert (K' : keep_specs found = Some s) by (apply keep_specs_spec; auto).
      congruence.
  - intros s -> Ec Ef. unfold keep_specs. rewrite Ec. simpl.
    unfold merge. rewrite Ef. simpl. eexists. split; reflexivity.
  - intros s k -> Ec Ek Tk Ef. unfold keep_specs. rewrite Ec, Ek. simpl.
    rewrite Tk. simpl. eexists. split; [reflexivity|]. simpl. exact Ec.
Qed.

Lemma C3_merge_whole_result_witness :
  let s := mkSpecs (Some (of_int 850)) (Some (of_int 2500))
                   (Some (py "Inverter")) None in
  let form := Form.mk (of_int 900) (of_int 2600) (py "Oui") (py "A") in
  exists sh, merge (keep_specs (Some s)) form = Some sh
             /\ final_consumption sh = Some (of_int 850).
Proof.
  intros s form.
  destruct (C3_merge_whole_result (Some s) form) as (_ & _ & H).
  apply (H s (of_int 2500)); vm_compute; reflexivity.
Defined.

(** The merge of the program differs from the field-by-field merge of the
    specification: an automatic consumption of 850 without a cooling power
    is dropped for the manual 900, and an automatic result without energy
    class hides the manual class. *)
Lemma C3_merge_counterexample :
  let form := Form.mk (of_int 900) (of_int 2600) (py "Oui") (py "A") in
  let partial := mkSpecs (Some (of_int 850)) None
                         (Some (py "Inverter")) None in
  let classless := mkSpecs (Some (of_int 850)) (Some (of_int 2500))
                           (Some (py "Inverter")) None in
  (exists sh, merge (keep_specs (Some partial)) form = Some sh
     /\ final_consumption sh <>
        Some (merge_field_spec (Some partial) consumption_w
                               (Form.consumption form)))
  /\ (exists sh, merge (keep_specs (Some classless)) form = Some sh
     /\ efficiency sh <>
        Some (merge_field_spec (Some classless) energy_class
                               (Form.energy_class form))).
Proof.
  intros form partial classless. split.
  - eexists. split; [vm_compute; reflexivity|].
    vm_compute. intros H. discriminate H.
  - eexists. split; [vm_compute; reflexivity|].
    vm_compute. intros H. discriminate H.
Qed.

(** * Further properties *)

(** ** Reading a power *)

Lemma match_at_power_non_digit c s :
  is_digit c = false -> match_at power_re (c :: s) = None.
Proof.
  intros H. unfold match_at, power_re, Plus. cbn [matchk].
  rewrite H. reflexivity.
Qed.

(** X1. Characters before the first digit play no part in the reading of
    a power; a minus sign in particular is dropped, so that a negative
    quantity is read as its absolute value. *)
Theorem X1_leading_characters_skipped (pre s : str) :
  forallb (fun c => negb (is_digit c)) pre = true ->
  parse_power_value (pre ++ s) = parse_power_value s.
Proof.
  induction pre as [|c pre IH]; simpl; intros H; [reflexivity|].
  apply andb_prop in H. destruct H as [Hc Hp].
  apply negb_true_iff in Hc.
  rewrite <- (IH Hp). unfold parse_power_value. cbn [search].
  rewrite (match_at_power_non_digit c (pre ++ s) Hc). reflexivity.
Qed.

Lemma X1_leading_characters_skipped_witness :
  parse_power_value (py "-5 w") = parse_power_value (py "5 w").
Proof.
  apply (X1_leading_characters_skipped (py "-") (py "5 w")).
  vm_compute. reflexivity.
Defined.

Lemma parse_power_value_plus s v :
  parse_power_value s = Some v -> plus_signed v = true.
Proof.
  unfold parse_power_value, power_of_groups, bind_result.
  destruct (search power_re s) as [m|]; [|discriminate].
  destruct (float_of_str _) as [e|x] eqn:F; [discriminate|].
  destruct (getitem conversions _) as [e|c] eqn:G; [discriminate|].
  intros H. inversion H; subst v.
  eapply conversions_positive; eauto. eapply float_of_str_plus; eauto.
Qed.

Lemma plus_signed_not_nan x : plus_signed x = true -> x <> S754_nan.
Proof. intros H E. rewrite E in H. discriminate. Qed.

Lemma extract_consumption t :
  consumption_w (extract_specs_from_text t) =
  match search consumption_re (lower t) with
  | Some m => parse_power_value (group 2 m)
  | None => None
  end.
Proof.
  unfold extract_specs_from_text.
  destruct (search consumption_re (lower t));
    destruct (search cooling_re (lower t)); reflexivity.
Qed.

Lemma extract_cooling t :
  cooling_w (extract_specs_from_text t) =
  match search cooling_re (lower t) with
  | Some m => parse_power_value (group 2 m)
  | None => None
  end.
Proof.
  unfold extract_specs_from_text.
  destruct (search consumption_re (lower t));
    destruct (search cooling_re (lower t)); reflexivity.
Qed.

Lemma extract_powers_plus t v :
  consumption_w (extract_specs_from_text t) = Some v
  \/ cooling_w (extract_specs_from_text t) = Some v ->
  plus_signed v = true.
Proof.
  rewrite extract_consumption, extract_cooling. intros [H|H].
  - destruct (search consumption_re (lower t)); [|discriminate].
    eapply parse_power_value_plus, H.
  - destruct (search cooling_re (lower t)); [|discriminate].
    eapply parse_power_value_plus, H.
Qed.

(** X2. Every power of an extracted result, consumption or cooling, is a
    float that is at least zero and not NaN. *)
Theorem X2_extracted_powers_nonneg (t : str) (v : float) :
  consumption_w (extract_specs_from_text t) = Some v
  \/ cooling_w (extract_specs_from_text t) = Some v ->
  nonneg v = true /\ v <> S754_nan.
Proof.
  intros H. apply extract_powers_plus in H.
  split; [apply plus_signed_nonneg, H|apply plus_signed_not_nan, H].
Qed.

Lemma X2_extracted_powers_nonneg_witness :
  nonneg (of_int 3500) = true /\ of_int 3500 <> S754_nan.
Proof.
  apply (X2_extracted_powers_nonneg sample_text). right.
  vm_compute. reflexivity.
Defined.

(** ** Runs of the fallback chain *)

Lemma extract_inverter t :
  inverter (extract_specs_from_text t) =
  Some (if contains (lower t) (py "inverter")
        then py "Inverter" else py "Non-Inverter").
Proof. reflexivity. Qed.

Lemma plus_signed_positive x :
  plus_signed x = true -> truthy x = true -> positive_float x = true.
Proof.
  destruct x as [[|]|[|]| |[|] m e]; simpl; try discriminate; auto.
Qed.

Section FetchRuns.

Variable World : Type.
Variable requests_get : str -> option Z -> World -> result response * World.
Variable quote : str -> str.
Variable hrefs : str -> result (list str).
Variable link_target : str -> result str.
Variable pdf_text : list N -> result str.
Variable search_div_text : str -> result str.

Local Abbreviation pdf := (pdf_search requests_get quote hrefs link_target pdf_text).
Local Abbreviation html := (html_search requests_get quote search_div_text).
Local Abbreviation fetch :=
  (fetch_product_specs requests_get quote hrefs link_target pdf_text
                       search_div_text).
Local Abbreviation recovered :=
  (pdf_search_recovered requests_get quote hrefs link_target pdf_text).
Local Abbreviation pdf_run :=
  (pdf_search_run World requests_get quote hrefs link_target pdf_text).
Local Abbreviation html_run :=
  (html_search_run World requests_get quote search_div_text).
Local Abbreviation pdf_stages :=
  (pdf_search_stages World requests_get quote hrefs link_target pdf_text).
Local Abbreviation chain_cases :=
  (fetch_cases World requests_get quote hrefs link_target pdf_text
               search_div_text).

Lemma fetch_is_extraction model (st : state World) s st' :
  fetch model st = (inr (Some s), st') ->
  exists doc, s = extract_specs_from_text doc.
Proof.
  intros H.
  destruct (chain_cases model st) as [(s0 & P & E)|[(e & _ & _ & E)|[_ E]]];
    rewrite E in H; inversion H; subst.
  - destruct (pdf_run model st) as (dl & _ & [[_ C]|C]).
    + exfalso. exact (C s P).
    + destruct C as (r & w1 & links & first & rest & u & _ & _ & _ & _ & _ & C).
      destruct (C s P) as (r2 & doc & _ & _ & ->). eauto.
  - destruct (html_run model (snd (pdf model st))) as [_ C].
    destruct (fst (html model (snd (pdf model st)))) as [e|s1] eqn:Eh;
      [discriminate|].
    inversion H1; subst. apply (C s). reflexivity.
Qed.

(** X3. Whatever the network and the parsers do, a result returned by the
    chain is the extraction of some text: its inverter field is "Inverter"
    or "Non-Inverter", never absent, and each of its powers, when present,
    is at least zero and not NaN. *)
Theorem X3_fetched_result_well_formed model (st st' : state World) s :
  fetch model st = (inr (Some s), st') ->
  (exists doc, s = extract_specs_from_text doc)
  /\ (inverter s = Some (py "Inverter")
      \/ inverter s = Some (py "Non-Inverter"))
  /\ (forall v, consumption_w s = Some v \/ cooling_w s = Some v ->
                nonneg v = true /\ v <> S754_nan).
Proof.
  intros H. destruct (fetch_is_extraction model st s st' H) as [doc ->].
  split; [eauto|]. split.
  - rewrite extract_inverter.
    destruct (contains (lower doc) (py "inverter")); auto.
  - intros v Hv. apply extract_powers_plus in Hv.
    split; [apply plus_signed_nonneg, Hv|apply plus_signed_not_nan, Hv].
Qed.

(** X4. When the page keeps the result of the chain, the consumption and
    the cooling power it shows are both strictly positive floats (possibly
    infinite, never NaN). *)
Theorem X4_kept_powers_positive model (st st' : state World) found
        pressed model_name s :
  fetch model st = (inr found, st') ->
  search_step pressed model_name found = Some s ->
  exists c k, consumption_w s = Some c /\ cooling_w s = Some k
              /\ positive_float c = true /\ positive_float k = true.
Proof.
  intros H K. unfold search_step in K.
  destruct pressed; [|discriminate].
  destruct model_name as [|x n]; [discriminate|].
  apply keep_specs_spec in K. destruct K as [-> (c & k & Ec & Ek & Tc & Tk)].
  destruct (fetch_is_extraction model st s st' H) as [doc ->].
  exists c, k. repeat split; auto.
  - apply plus_signed_positive; auto.
    apply (extract_powers_plus doc). auto.
  - apply plus_signed_positive; auto.
    apply (extract_powers_plus doc). auto.
Qed.

(** The requests of a run of the chain, with where the download comes
    from and when the plain query is sent. *)
Lemma fetch_requests model (st : state World) :
  exists dl hq,
    requests (snd (snd (fetch model st))) =
      requests (snd st) ++ (pdf_search_url quote model, Some 10%Z) :: dl ++ hq
    /\ (dl = []
        \/ exists r w1 links first rest u,
             requests_get (pdf_search_url quote model) (Some 10%Z) (fst st)
               = (inr r, w1)
             /\ hrefs (text r) = inr links
             /\ filter is_pdf_link links = first :: rest
             /\ link_target first = inr u
             /\ dl = [(u, Some 15%Z)])
    /\ ((hq = []
         /\ ((exists s, fst (pdf model st) = inr (Some s))
             \/ exists e, fst (pdf model st) = inl e
                          /\ is_exception e = false))
        \/ (hq = [(html_search_url quote model, None)]
            /\ recovered model st)).
Proof.
  destruct (pdf_run model st) as (dl & R & D).
  assert (Hdl : dl = []
        \/ exists r w1 links first rest u,
             requests_get (pdf_search_url quote model) (Some 10%Z) (fst st)
               = (inr r, w1)
             /\ hrefs (text r) = inr links
             /\ filter is_pdf_link links = first :: rest
             /\ link_target first = inr u
             /\ dl = [(u, Some 15%Z)]).
  { destruct D as [[-> _]|(r & w1 & links & first & rest & u & D)]; auto.
    right. exists r, w1, links, first, rest, u. tauto. }
  destruct (chain_cases model st)
    as [(s & P & E)|[(e & P & Ee & E)|[F E]]]; rewrite E; simpl.
  - exists dl, []. rewrite app_nil_r. repeat split; auto. left. eauto.
  - exists dl, []. rewrite app_nil_r. repeat split; auto. left. eauto.
  - destruct (html_run model (snd (pdf model st))) as [Rh _].
    exists dl, [(html_search_url quote model, None)].
    rewrite Rh, R, <- app_assoc. repeat split; auto.
Qed.


(** X6. When the first block returns, the chain returns its result as it
    is, the extraction of the text of the PDF whatever it holds, and the
    second block is not run: no HTML stage is entered and no plain query
    is sent. *)
Theorem X6_pdf_result_final model (st : state World) s :
  fst (pdf model st) = inr (Some s) ->
  fetch model st = (inr (Some s), snd (pdf model st))
  /\ stages (snd (snd (fetch model st))) = stages (snd st) ++ [PDF_SEARCH]
  /\ (exists u, requests (snd (snd (fetch model st))) =
                requests (snd st)
                ++ [(pdf_search_url quote model, Some 10%Z); (u, Some 15%Z)])
  /\ exists doc, s = extract_specs_from_text doc.
Proof.
  intros P.
  destruct (chain_cases model st)
    as [(s0 & P0 & E)|[(e & P0 & _)|[[P0|(e & P0 & _)] _]]];
    rewrite P in P0; try discriminate.
  inversion P0; subst s0. rewrite E. simpl.
  split; [reflexivity|]. split; [apply pdf_stages|].
  destruct (pdf_run model st) as (dl & R & [[_ C]|C]).
  - exfalso. exact (C s P).
  - destruct C as (r & w1 & links & first & rest & u & _ & _ & _ & _ & -> & C).
    split; [exists u; exact R|].
    destruct (C s P) as (r2 & doc & _ & _ & ->). eauto.
Qed.

(** X7. The chain downloads at most the first link of the result page
    that contains "pdf", case ignored, and does not contain "google.com":
    a download request, told by its limit of 15 seconds, goes to the
    address computed from that link, and no link before it passes the
    filter. *)
Theorem X7_download_first_pdf_link model (w : World) u :
  In (u, Some 15%Z) (requests (snd (snd (fetch model (w, []))))) ->
  exists r w1 links l1 first l2,
    requests_get (pdf_search_url quote model) (Some 10%Z) w = (inr r, w1)
    /\ hrefs (text r) = inr links
    /\ links = l1 ++ first :: l2
    /\ forallb (fun l => negb (is_pdf_link l)) l1 = true
    /\ (exists a b, lower first = a ++ py "pdf" ++ b)
    /\ contains first (py "google.com") = false
    /\ link_target first = inr u.
Proof.
  destruct (fetch_requests model (w, [])) as (dl & hq & R & Hd & Hq).
  rewrite R. simpl. intros [H|H]; [inversion H|].
  apply in_app_or in H. destruct H as [H|H].
  - destruct Hd as [->|(r & w1 & links & first & rest & u0 & D)];
      [contradiction|].
    destruct D as (E1 & E2 & E3 & E4 & ->).
    destruct H as [H|[]]. inversion H; subst u0.
    destruct (filter_head is_pdf_link links first rest E3)
      as (l1 & l2 & -> & Hl & Hf).
    unfold is_pdf_link in Hf. apply andb_prop in Hf. destruct Hf as [F1 F2].
    apply contains_spec in F1. apply negb_true_iff in F2.
    exists r, w1, (l1 ++ first :: l2), l1, first, l2. repeat split; auto.
  - destruct Hq as [[-> _]|[-> _]]; simpl in H; [contradiction|].
    destruct H as [H|[]]. inversion H.
Qed.

End FetchRuns.

Lemma X3_fetched_result_well_formed_witness :
  inverter (extract_specs_from_text sample_text) = Some (py "Inverter")
  \/ inverter (extract_specs_from_text sample_text)
     = Some (py "Non-Inverter").
Proof.
  destruct (X3_fetched_result_well_formed unit html_only_get (fun q => q)
              (fun _ => inl OtherError) (fun _ => inl OtherError)
              (fun _ => inl OtherError) (fun page => inr page)
              (py "Daikin FTXS35K") (tt, [])
              (tt, [Enter PDF_SEARCH;
                    Get (py "https://www.google.com/search?q=Daikin FTXS35K technical specifications filetype:pdf")
                        (Some 10%Z);
                    Enter HTML_SEARCH;
                    Get (py "https://www.google.com/search?q=Daikin FTXS35K")
                        None])
              (extract_specs_from_text sample_text))
    as (_ & I & _).
  - vm_compute. reflexivity.
  - exact I.
Defined.

Lemma X4_kept_powers_positive_witness :
  exists c k,
    consumption_w (extract_specs_from_text sample_text) = Some c
    /\ cooling_w (extract_specs_from_text sample_text) = Some k
    /\ positive_float c = true /\ positive_float k = true.
Proof.
  apply (X4_kept_powers_positive unit html_only_get (fun q => q)
           (fun _ => inl OtherError) (fun _ => inl OtherError)
           (fun _ => inl OtherError) (fun page => inr page)
           (py "Daikin FTXS35K") (tt, [])
           (tt, [Enter PDF_SEARCH;
                 Get (py "https://www.google.com/search?q=Daikin FTXS35K technical specifications filetype:pdf")
                     (Some 10%Z);
                 Enter HTML_SEARCH;
                 Get (py "https://www.google.com/search?q=Daikin FTXS35K")
                     None])
           (Some (extract_specs_from_text sample_text))
           true (py "Daikin FTXS35K")).
  - vm_compute. reflexivity.
  - vm_compute. reflexivity.
Defined.

Lemma X6_pdf_result_final_witness :
  stages
    (snd (snd (fetch_product_specs open_get (fun q => q)
                 (fun _ => inr example_links) (fun l => inr l)
                 (fun _ => inr sample_text) (fun _ => inl OtherError)
                 (py "Daikin FTXS35K") (tt, []))))
  = [PDF_SEARCH].
Proof.
  destruct (X6_pdf_result_final unit open_get (fun q => q)
              (fun _ => inr example_links) (fun l => inr l)
              (fun _ => inr sample_text) (fun _ => inl OtherError)
              (py "Daikin FTXS35K") (tt, [])
              (extract_specs_from_text sample_text))
    as (_ & S & _).
  - vm_compute. reflexivity.
  - exact S.
Defined.

Lemma X7_download_first_pdf_link_witness :
  exists l1 first l2,
    example_links = l1 ++ first :: l2
    /\ forallb (fun l => negb (is_pdf_link l)) l1 = true
    /\ contains first (py "google.com") = false
    /\ first = py "https://maker.example/FTXS35K.PDF".
Proof.
  destruct (X7_download_first_pdf_link unit open_get (fun q => q)
              (fun _ => inr example_links) (fun l => inr l)
              (fun _ => inr sample_text) (fun _ => inl OtherError)
              (py "Daikin FTXS35K") tt
              (py "https://maker.example/FTXS35K.PDF"))
    as (r & w1 & links & l1 & first & l2 & _ & E & L & F & _ & G & T).
  - vm_compute. auto.
  - inversion E; subst links. inversion T; subst first.
    exists l1, (py "https://maker.example/FTXS35K.PDF"), l2. auto.
Defined.

(** ** The simulation *)

Lemma SFdiv_plus_any x (m : positive) e :
  plus_signed x = true ->
  plus_signed (float_div x (S754_finite false m e)) = true.
Proof.
  unfold float_div.
  destruct x as [[|]|[|]| |[|] m1 e1]; simpl; try discriminate; auto.
  intros _. apply SFdiv_plus.
Qed.

Lemma mul_positive_finite x y :
  plus_signed x = true -> positive_finite y = true ->
  plus_signed (mul x y) = true.
Proof.
  destruct y as [?|?| |[|] m e]; simpl; try discriminate.
  intros H _. apply SFmul_plus, H.
Qed.

(** The whole numbers of the two widgets are positive finite floats. *)
Lemma small_int_positive_finite n :
  (1 <= n <= 31)%Z -> positive_finite (of_int n) = true.
Proof.
  intros H.
  assert (A : forallb (fun k => positive_finite (of_int (Z.of_nat k)))
                (seq 1 31) = true) by (vm_compute; reflexivity).
  rewrite forallb_forall in A.
  rewrite <- (Z2Nat.id n) by lia. apply A. apply in_seq. lia.
Qed.

Lemma nonneg_truthy_plus c :
  nonneg c = true -> truthy c = true -> plus_signed c = true.
Proof.
  destruct c as [[|]|[|]| |[|] m e]; simpl; try discriminate; auto.
Qed.

Lemma chart_loaded (x : float) h :
  (h <= 24)%nat ->
  List.length
    (filter loaded
       (List.map (fun k => if (Z.of_nat k <? Z.of_nat h)%Z
                           then PyFloat x else PyInt 0) (seq 0 24))) = h.
Proof.
  intros H.
  assert (A : forallb
                (fun h =>
                   Nat.eqb
                     (List.length
                        (filter loaded
                           (List.map
                              (fun k => if (Z.of_nat k <? Z.of_nat h)%Z
                                        then PyFloat x else PyInt 0)
                              (seq 0 24)))) h)
                (seq 0 25) = true) by (vm_compute; reflexivity).
  rewrite forallb_forall in A. apply Nat.eqb_eq, A, in_seq. lia.
Qed.

(** X8. With a consumption that is at least zero, hours of use within the
    slider (at most 24) and days of use within the input (1 to 31), the
    energy per day, the energy per month and the cost that the page
    computes are at least zero and never NaN; the chart has 24 entries,
    each zero or a float that is at least zero, and exactly as many of
    them carry the load as there are hours of use. *)
Theorem X8_simulation_sound (c : float) (usage_hours days : Z)
        (sim : simulation) :
  nonneg c = true -> (usage_hours <= 24)%Z -> (1 <= days <= 31)%Z ->
  simulate (Some c) usage_hours days = Some sim ->
  (nonneg (daily sim) = true /\ daily sim <> S754_nan)
  /\ (nonneg (monthly sim) = true /\ monthly sim <> S754_nan)
  /\ (nonneg (cost sim) = true /\ cost sim <> S754_nan)
  /\ List.length (chart sim) = 24%nat
  /\ forallb chart_entry_ok (chart sim) = true
  /\ List.length (filter loaded (chart sim)) = Z.to_nat usage_hours.
Proof.
  intros Hc Hh Hd. unfold simulate.
  remember (List.map _ (seq 0 24)) as ch eqn:Ech.
  destruct (truthy c) eqn:Tc; cbn [andb]; [|discriminate].
  destruct (Z.ltb_spec 0 usage_hours) as [Hp|]; [|discriminate].
  intros H. injection H as <-. cbn [daily monthly cost chart float_times].
  pose proof (nonneg_truthy_plus c Hc Tc) as Pc.
  assert (P1000 : exists m e, of_int 1000 = S754_finite false m e)
    by (do 2 eexists; vm_compute; reflexivity).
  destruct P1000 as (m & e & E1000).
  assert (Pd : plus_signed
                 (float_div (mul c (of_int usage_hours)) (of_int 1000)) = true).
  { rewrite E1000. apply SFdiv_plus_any.
    apply mul_positive_finite; auto. apply small_int_positive_finite. lia. }
  assert (Pm : plus_signed
                 (mul (float_div (mul c (of_int usage_hours)) (of_int 1000))
                      (of_int days)) = true).
  { apply mul_positive_finite; auto. apply small_int_positive_finite. lia. }
  assert (Pk : plus_signed
                 (mul (mul (float_div (mul c (of_int usage_hours))
                                      (of_int 1000)) (of_int days))
                      (of_decimal 18 2)) = true).
  { apply mul_positive_finite; auto. }
  assert (Pe : plus_signed (float_div c (of_int 1000)) = true).
  { rewrite E1000. apply SFdiv_plus_any, Pc. }
  split; [split; [apply plus_signed_nonneg|apply plus_signed_not_nan];
          exact Pd|].
  split; [split; [apply plus_signed_nonneg|apply plus_signed_not_nan];
          exact Pm|].
  split; [split; [apply plus_signed_nonneg|apply plus_signed_not_nan];
          exact Pk|].
  split; [|split].
  - rewrite Ech, length_map, length_seq. reflexivity.
  - rewrite Ech, forallb_forall. intros x Hx. apply in_map_iff in Hx.
    destruct Hx as (k & <- & _).
    destruct (Z.of_nat k <? usage_hours)%Z; cbn [chart_entry_ok]; auto.
  - rewrite Ech.
    assert (E : usage_hours = Z.of_nat (Z.to_nat usage_hours)) by lia.
    rewrite E, Nat2Z.id. apply chart_loaded. lia.
Qed.

Lemma X8_simulation_sound_witness :
  exists sim, simulate (Some (of_int 900)) 8 30 = Some sim
              /\ nonneg (cost sim) = true
              /\ List.length (filter loaded (chart sim)) = 8%nat.
Proof.
  eexists. split; [vm_compute; reflexivity|].
  match goal with
  | |- nonneg (cost ?s) = true /\ _ =>
      destruct (X8_simulation_sound (of_int 900) 8 30 s)
        as (_ & _ & [H _] & _ & _ & L);
      [vm_compute; reflexivity|lia|lia|vm_compute; reflexivity|]
  end.
  split; [exact H|exact L].
Defined.

(** ** Decimal comma and decimal point *)

Section MapChars.

Variable f : char -> char.
Variables A B : Type.
Variable h : A -> B.

Lemma star_map g (Hg : forall c, g (f c) = g c) :
  forall s (k : str -> option A) (k' : str -> option B),
    (forall s', k' (List.map f s') = option_map h (k s')) ->
    star g (List.map f s) k' = option_map h (star g s k).
Proof.
  induction s as [|c s IH]; intros k k' Hk; simpl.
  - apply (Hk []).
  - rewrite Hg. destruct (g c).
    + rewrite (IH k k' Hk).
      destruct (star g s k); simpl; [reflexivity|apply (Hk (c :: s))].
    + apply (Hk (c :: s)).
Qed.

Lemma matchk_map r : respects f r ->
  forall s g (k : str -> groups -> option A) (k' : str -> groups -> option B),
    (forall s' g', k' (List.map f s') (map_groups f g') = option_map h (k s' g')) ->
    matchk r (List.map f s) (map_groups f g) k' = option_map h (matchk r s g k).
Proof.
  induction r as [|p|c0|r1 IH1 r2 IH2|r1 IH1 r2 IH2|c0|n r IH];
    simpl; intros R s g k k' Hk.
  - apply Hk.
  - destruct s as [|c s]; simpl; auto. rewrite R.
    destruct (ci_eq p c); auto.
  - destruct s as [|c s]; simpl; auto. rewrite R.
    destruct (c0 c); auto.
  - destruct R as [R1 R2]. apply IH1; [exact R1|].
    intros s' g'. apply IH2; [exact R2|exact Hk].
  - destruct R as [R1 R2].
    rewrite (IH1 R1 s g k k' Hk), (IH2 R2 s g k k' Hk).
    destruct (matchk r1 s g k); reflexivity.
  - apply star_map; auto.
  - apply IH; [exact R|]. intros s' g'.
    rewrite !length_map, firstn_map.
    apply (Hk s' ((n, firstn (List.length s - List.length s') s) :: g')).
Qed.

End MapChars.

Lemma search_map f r : respects f r ->
  forall s, search r (List.map f s) = option_map (map_groups f) (search r s).
Proof.
  intros R.
  assert (M : forall s, match_at r (List.map f s)
                        = option_map (map_groups f) (match_at r s)).
  { intros s. unfold match_at.
    apply (matchk_map f groups groups (map_groups f) r R s []
                      (fun _ g => Some g) (fun _ g => Some g)).
    reflexivity. }
  induction s as [|c s IH].
  - cbn [search List.map]. change (@nil char) with (List.map f []) at 1.
    rewrite (M []). destruct (match_at r []); reflexivity.
  - cbn [search List.map]. change (f c :: List.map f s) with (List.map f (c :: s)).
    rewrite (M (c :: s)), IH. destruct (match_at r (c :: s)); reflexivity.
Qed.

Lemma group_map f n g :
  group n (map_groups f g) = List.map f (group n g).
Proof.
  induction g as [|[i w] g IH]; simpl; [reflexivity|].
  destruct (Nat.eqb i n); auto.
Qed.

Lemma comma_to_dot_respects_power : respects comma_to_dot power_re.
Proof.
  unfold power_re, unit_group, Plus, Opt. simpl.
  repeat split; intros c; unfold comma_to_dot;
    destruct (N.eqb_spec c 44) as [->|_]; reflexivity.
Qed.

Lemma comma_to_dot_idem s :
  List.map comma_to_dot (List.map comma_to_dot s) = List.map comma_to_dot s.
Proof.
  rewrite map_map. apply map_ext. intros c. unfold comma_to_dot.
  destruct (N.eqb_spec c 44) as [->|N]; [reflexivity|].
  destruct (N.eqb_spec c 44); [contradiction|reflexivity].
Qed.

(** A unit has no comma. *)
Lemma unit_no_comma u :
  lower u = py "w" \/ lower u = py "kw" \/ lower u = py "btu" ->
  List.map comma_to_dot u = u.
Proof.
  intros H. rewrite <- (map_id u) at 2. apply map_ext_in. intros c Hc.
  unfold comma_to_dot. destruct (N.eqb_spec c 44) as [->|_]; auto.
  exfalso.
  assert (I : In 44 (lower u)).
  { unfold lower. apply in_flat_map. exists 44. split; auto.
    left. reflexivity. }
  destruct H as [E|[E|E]]; rewrite E in I; vm_compute in I; intuition;
    discriminate.
Qed.

Lemma parse_comma_to_dot s :
  parse_power_value (List.map comma_to_dot s) = parse_power_value s.
Proof.
  unfold parse_power_value.
  rewrite (search_map comma_to_dot power_re comma_to_dot_respects_power).
  destruct (search power_re s) as [m|] eqn:E; simpl; [|reflexivity].
  rewrite !group_map.
  destruct (search_power_token s m E) as (d & v & u & -> & Hd & Hv & Hu).
  cbn [group Nat.eqb].
  unfold power_of_groups.
  change (replace_char 44 46 (List.map comma_to_dot (d :: v)))
    with (List.map comma_to_dot (List.map comma_to_dot (d :: v))).
  rewrite comma_to_dot_idem, (unit_no_comma u Hu). reflexivity.
Qed.

(** X9. The decimal comma and the decimal point are one and the same to
    the reading of a power: replacing every "," of a string by "." does not
    change what [parse_power_value] returns for it. *)
Theorem X9_comma_is_point (s : str) :
  parse_power_value (replace_char 44 46 s) = parse_power_value s.
Proof. exact (parse_comma_to_dot s). Qed.

Lemma lower_comma_to_dot t :
  lower (List.map comma_to_dot t) = List.map comma_to_dot (lower t).
Proof.
  induction t as [|c t IH]; [reflexivity|].
  change (lower (List.map comma_to_dot (c :: t)))
    with (lower_char (comma_to_dot c) ++ lower (List.map comma_to_dot t)).
  change (lower (c :: t)) with (lower_char c ++ lower t).
  rewrite map_app, IH. f_equal.
  unfold comma_to_dot at 1. destruct (N.eqb_spec c 44) as [->|N];
    [reflexivity|].
  unfold lower_char, in_range, comma_to_dot.
  split_compare; split_compare; try reflexivity; try (f_equal; lia).
Qed.

Lemma startswith_comma_to_dot a : forall s,
  forallb (fun x => negb (x =? 44) && negb (x =? 46)) a = true ->
  startswith (List.map comma_to_dot s) a = startswith s a.
Proof.
  induction a as [|x a IH]; intros s H.
  - destruct s; reflexivity.
  - simpl in H. apply andb_prop in H. destruct H as [Hx Ha].
    destruct s as [|c s]; simpl; [reflexivity|].
    rewrite (IH s Ha). f_equal. unfold comma_to_dot.
    apply andb_prop in Hx. destruct Hx as [X1 X2].
    apply negb_true_iff in X1. apply negb_true_iff in X2.
    destruct (N.eqb_spec c 44) as [->|_]; [|reflexivity].
    rewrite X1, X2. reflexivity.
Qed.

Lemma contains_comma_to_dot a s :
  forallb (fun x => negb (x =? 44) && negb (x =? 46)) a = true ->
  contains (List.map comma_to_dot s) a = contains s a.
Proof.
  intros H. induction s as [|c s IH].
  - change (contains (List.map comma_to_dot []) a)
      with (startswith (List.map comma_to_dot []) a || false).
    change (contains [] a) with (startswith [] a || false).
    rewrite startswith_comma_to_dot; auto.
  - change (contains (List.map comma_to_dot (c :: s)) a)
      with (startswith (List.map comma_to_dot (c :: s)) a
            || contains (List.map comma_to_dot s) a).
    change (contains (c :: s) a) with (startswith (c :: s) a || contains s a).
    rewrite startswith_comma_to_dot, IH; auto.
Qed.

Lemma comma_to_dot_respects_fields :
  respects comma_to_dot consumption_re /\ respects comma_to_dot cooling_re
  /\ respects comma_to_dot class_re.
Proof.
  unfold consumption_re, cooling_re, class_re, quantity_group, unit_group,
    Plus. simpl.
  repeat split; intros c; unfold comma_to_dot;
    destruct (N.eqb_spec c 44) as [->|_]; reflexivity.
Qed.

Lemma class_no_comma c :
  class_shape c = true -> List.map comma_to_dot c = c.
Proof.
  destruct c as [|l ps]; [discriminate|]. simpl. intros H.
  apply andb_prop in H. destruct H as [Hl Hp]. f_equal.
  - unfold class_letter, in_range, comma_to_dot in *. split_compare.
  - rewrite <- (map_id ps) at 2. apply map_ext_in. intros x Hx.
    rewrite forallb_forall in Hp. specialize (Hp x Hx).
    unfold plus_sign, comma_to_dot in *. split_compare.
Qed.

Lemma find_energy_class_shape t c :
  find_energy_class t = Some c -> class_shape c = true.
Proof.
  unfold find_energy_class.
  destruct (search class_re t) as [m|] eqn:E; [|discriminate].
  intros H. inversion H; subst c. clear H.
  apply search_sound in E. destruct E as (a & w & b & -> & S).
  apply class_token in S.
  destruct S as (label & pre & l & ps & -> & -> & Hl & Hp).
  simpl. rewrite Hl, Hp. reflexivity.
Qed.

Lemma find_energy_class_comma_to_dot t :
  find_energy_class (List.map comma_to_dot t) = find_energy_class t.
Proof.
  destruct comma_to_dot_respects_fields as (_ & _ & R).
  pose proof (find_energy_class_shape t) as Sh.
  unfold find_energy_class in *.
  rewrite (search_map comma_to_dot class_re R).
  destruct (search class_re t) as [m|]; simpl; [|reflexivity].
  rewrite group_map, class_no_comma; auto.
Qed.

Lemma specs_eta (s : specs) :
  s = mkSpecs (consumption_w s) (cooling_w s) (inverter s) (energy_class s).
Proof. destruct s; reflexivity. Qed.

(** X10. The same holds for the whole extraction: a text and the text
    with every "," replaced by "." give the same four fields. *)
Theorem X10_extraction_comma_is_point (t : str) :
  extract_specs_from_text (replace_char 44 46 t) = extract_specs_from_text t.
Proof.
  change (replace_char 44 46 t) with (List.map comma_to_dot t).
  destruct comma_to_dot_respects_fields as (R1 & R2 & _).
  rewrite (specs_eta (extract_specs_from_text (List.map comma_to_dot t))).
  rewrite (specs_eta (extract_specs_from_text t)).
  rewrite !extract_consumption, !extract_cooling, !extract_inverter.
  change (energy_class (extract_specs_from_text (List.map comma_to_dot t)))
    with (find_energy_class (lower (List.map comma_to_dot t))).
  change (energy_class (extract_specs_from_text t))
    with (find_energy_class (lower t)).
  rewrite lower_comma_to_dot.
  rewrite (search_map comma_to_dot consumption_re R1).
  rewrite (search_map comma_to_dot cooling_re R2).
  rewrite contains_comma_to_dot by reflexivity.
  rewrite find_energy_class_comma_to_dot.
  f_equal.
  - destruct (search consumption_re (lower t)); simpl; [|reflexivity].
    rewrite group_map. apply parse_comma_to_dot.
  - destruct (search cooling_re (lower t)); simpl; [|reflexivity].
    rewrite group_map. apply parse_comma_to_dot.
Qed.

(** ** A number, spaces, a unit *)

Section Greedy.

Variable A : Type.

Lemma star_app f a : forall b (k : str -> option A) x,
  forallb f a = true -> star f b k = Some x -> star f (a ++ b) k = Some x.
Proof.
  induction a as [|c a IH]; simpl; intros b k x Ha Hb; [exact Hb|].
  apply andb_prop in Ha. destruct Ha as [Hc Ha].
  rewrite Hc, (IH b k x Ha Hb). reflexivity.
Qed.

Lemma star_stop f b (k : str -> option A) :
  stops f b -> star f b k = k b.
Proof.
  destruct b as [|c b]; simpl; [reflexivity|]. intros ->. reflexivity.
Qed.

(** A run of digits, ".", "," read by the two repetitions of group 1. *)
Lemma two_stars v : forall b (k : str -> option A) x,
  forallb digit_dot_comma v = true -> stops digit_dot_comma b ->
  k b = Some x ->
  star is_digit (v ++ b) (fun s' => star digit_dot_comma s' k) = Some x.
Proof.
  induction v as [|c v IH]; intros b k x Hv Hb Hk.
  - simpl. rewrite star_stop.
    + rewrite star_stop; auto.
    + destruct b as [|c b]; simpl in *; auto.
      unfold digit_dot_comma in Hb. apply orb_false_iff in Hb.
      destruct Hb as [Hb _]. apply orb_false_iff in Hb. tauto.
  - simpl in Hv. apply andb_prop in Hv. destruct Hv as [Hc Hv].
    cbn [app star]. destruct (is_digit c).
    + rewrite (IH b k x Hv Hb Hk). reflexivity.
    + rewrite Hc. rewrite (star_app digit_dot_comma v b k x Hv).
      * reflexivity.
      * rewrite star_stop; auto.
Qed.

Lemma opt_lit_total p s g (k : str -> groups -> option A) x :
  (forall s', k s' g = Some x) -> matchk (Opt (Lit p)) s g k = Some x.
Proof.
  intros H. unfold Opt. cbn [matchk].
  destruct s as [|c s]; [apply H|].
  destruct (ci_eq p c); [rewrite H; reflexivity|apply H].
Qed.

End Greedy.

Lemma space_cases c :
  is_space c = true ->
  In c [9; 10; 11; 12; 13; 28; 29; 30; 31; 32; 133; 160; 5760; 8192; 8193;
        8194; 8195; 8196; 8197; 8198; 8199; 8200; 8201; 8202; 8232; 8233;
        8239; 8287; 12288].
Proof.
  unfold is_space, in_range. intros H.
  repeat (apply orb_prop in H; destruct H as [H|H]);
    try apply andb_prop in H; try apply N.eqb_eq in H; simpl;
    try (subst; tauto).
  all: destruct H as [H1 H2]; apply N.leb_le in H1; apply N.leb_le in H2;
       lia.
Qed.

Lemma space_not_number c : is_space c = true -> digit_dot_comma c = false.
Proof.
  intros H. apply space_cases in H. simpl in H.
  repeat (destruct H as [<-|H]; [vm_compute; reflexivity|]). contradiction.
Qed.

Lemma unit_cases u c :
  In (u, c) conversions ->
  (u = py "w" /\ c = PyInt 1) \/ (u = py "kw" /\ c = PyInt 1000)
  \/ (u = py "btu" /\ c = PyFloat (of_decimal 29307107 8)).
Proof.
  unfold conversions. intros [H|[H|[H|[]]]]; inversion H; auto.
Qed.

Lemma stops_before_unit ws u c rest :
  forallb is_space ws = true -> In (u, c) conversions ->
  stops digit_dot_comma (ws ++ u ++ rest).
Proof.
  intros Hw Hu. destruct ws as [|x ws].
  - apply unit_cases in Hu.
    destruct Hu as [[-> _]|[[-> _]|[-> _]]]; vm_compute; reflexivity.
  - simpl in *. apply andb_prop in Hw. destruct Hw as [Hx _].
    apply space_not_number, Hx.
Qed.

(** Spaces and a unit, captured as group [n], before any text. *)
Lemma match_unit n ws u c rest g (k : str -> groups -> option groups) x :
  forallb is_space ws = true -> In (u, c) conversions ->
  k rest ((n, u) :: g) = Some x ->
  matchk (Cat (Star is_space) (unit_group n)) (ws ++ u ++ rest) g k = Some x.
Proof.
  intros Hw Hu Hk. cbn [matchk]. apply star_app; [exact Hw|].
  change (unit_group n)
    with (Group n (Alt (Lit 119)
                    (Alt (Cat (Lit 107) (Lit 119))
                         (Cat (Lit 98) (Cat (Lit 116) (Lit 117)))))).
  apply unit_cases in Hu. destruct Hu as [[-> _]|[[-> _]|[-> _]]].
  - change (py "w") with [119] in *.
    rewrite star_stop by (vm_compute; reflexivity).
    cbn [matchk app]. eval_tests.
    change (119 :: rest) with ([119] ++ rest). rewrite firstn_consumed.
    use_result Hk.
  - change (py "kw") with [107; 119] in *.
    rewrite star_stop by (vm_compute; reflexivity).
    cbn [matchk app]. eval_tests.
    change (107 :: 119 :: rest) with ([107; 119] ++ rest).
    rewrite firstn_consumed. use_result Hk.
  - change (py "btu") with [98; 116; 117] in *.
    rewrite star_stop by (vm_compute; reflexivity).
    cbn [matchk app]. eval_tests.
    change (98 :: 116 :: 117 :: rest) with ([98; 116; 117] ++ rest).
    rewrite firstn_consumed. use_result Hk.
Qed.

(** The end of the pattern of [parse_power_value] on spaces, a unit and
    any text after it. *)
Lemma match_unit_tail ws u c rest g (k : str -> groups -> option groups) x :
  forallb is_space ws = true -> In (u, c) conversions ->
  (forall s', k s' ((2%nat, u) :: g) = Some x) ->
  matchk (Cat (Star is_space)
            (Cat (unit_group 2) (Cat (Opt (Lit 47)) (Opt (Lit 104)))))
         (ws ++ u ++ rest) g k = Some x.
Proof.
  intros Hw Hu Hk.
  change (matchk (Cat (Star is_space) (unit_group 2)) (ws ++ u ++ rest) g
            (fun s' g' =>
               matchk (Cat (Opt (Lit 47)) (Opt (Lit 104))) s' g' k) = Some x).
  eapply match_unit; eauto.
  cbn [matchk]. apply opt_lit_total. intros s'.
  apply opt_lit_total. exact Hk.
Qed.

Lemma match_at_power_token d v ws u c rest :
  is_digit d = true -> forallb digit_dot_comma v = true ->
  forallb is_space ws = true -> In (u, c) conversions ->
  match_at power_re (d :: v ++ ws ++ u ++ rest)
  = Some [(2%nat, u); (1%nat, d :: v)].
Proof.
  intros Hd Hv Hw Hu. unfold match_at, power_re, Plus. cbn [matchk].
  rewrite Hd. apply two_stars; auto.
  - eapply stops_before_unit; eauto.
  - eapply match_unit_tail; eauto. intros s'.
    change (d :: v ++ ws ++ u ++ rest) with ((d :: v) ++ ws ++ u ++ rest).
    rewrite firstn_consumed. reflexivity.
Qed.

Lemma parse_number_unit d v ws u c rest :
  is_digit d = true -> forallb digit_dot_comma v = true ->
  forallb is_space ws = true -> In (u, c) conversions ->
  parse_power_value (d :: v ++ ws ++ u ++ rest) =
  match float_of_str (replace_char 44 46 (d :: v)) with
  | inr x => Some (float_times x c)
  | inl _ => None
  end.
Proof.
  intros Hd Hv Hw Hu. unfold parse_power_value. cbn [search].
  rewrite (match_at_power_token d v ws u c rest Hd Hv Hw Hu).
  cbn [group Nat.eqb]. unfold power_of_groups, bind_result.
  destruct (float_of_str _) as [e|x]; [reflexivity|].
  apply unit_cases in Hu.
  destruct Hu as [[-> ->]|[[-> ->]|[-> ->]]]; reflexivity.
Qed.

(** X11. A string that starts with a number (a digit, then digits, "."
    and ","), goes on with any spaces and one of the units "w", "kw",
    "btu", and ends with any text, is read as the number times the factor
    of the unit when the number is a decimal number, and as nothing when
    it is not; what follows the unit plays no part. *)
Theorem X11_number_and_unit d v ws u c rest :
  is_digit d = true -> forallb digit_dot_comma v = true ->
  forallb is_space ws = true -> In (u, c) conversions ->
  parse_power_value (d :: v ++ ws ++ u ++ rest) =
  match float_of_str (replace_char 44 46 (d :: v)) with
  | inr x => Some (float_times x c)
  | inl _ => None
  end.
Proof. exact (parse_number_unit d v ws u c rest). Qed.

Lemma X11_number_and_unit_witness :
  parse_power_value (py "3,5 kw/h nominal") =
  Some (float_times (of_decimal 35 1) (PyInt 1000)).
Proof.
  apply (X11_number_and_unit 51 (py ",5") (py " ") (py "kw") (PyInt 1000)
           (py "/h nominal")); vm_compute; auto.
Defined.

(** ** A label, a number, a unit *)

Lemma in_range_cased lo n c :
  in_range (N.of_nat lo) (N.of_nat (lo + n - 1)) c = true -> (0 < n)%nat ->
  In c (List.map N.of_nat (seq lo n)).
Proof.
  unfold in_range. intros H Hn. apply andb_prop in H. destruct H as [H1 H2].
  apply N.leb_le in H1. apply N.leb_le in H2.
  apply in_map_iff. exists (N.to_nat c). split; [lia|]. apply in_seq. lia.
Qed.

Lemma lower_char_cased c : lower_char c = [c] \/ In c cased.
Proof.
  unfold lower_char, cased.
  destruct (in_range 65 90 c) eqn:R1.
  { right. apply in_or_app. left. rewrite map_app. apply in_or_app. left.
    apply (in_range_cased 65 26 c); [exact R1|lia]. }
  destruct (in_range 192 222 c) eqn:R2; simpl andb.
  { right. apply in_or_app. left. rewrite map_app. apply in_or_app. right.
    apply (in_range_cased 192 31 c); [exact R2|lia]. }
  destruct (N.eqb_spec c 304) as [->|_].
  { right. apply in_or_app. right. simpl. auto. }
  destruct (N.eqb_spec c 8490) as [->|_]; [|auto].
  right. apply in_or_app. right. simpl. auto.
Qed.

Lemma lower_fixed (P : char -> bool) s :
  forallb (fun c => negb (P c)) cased = true ->
  forallb P s = true -> lower s = s.
Proof.
  intros C. rewrite forallb_forall in C.
  induction s as [|c s IH]; simpl; [reflexivity|]. intros H.
  apply andb_prop in H. destruct H as [Hc Hs].
  change (lower (c :: s)) with (lower_char c ++ lower s).
  rewrite (IH Hs). destruct (lower_char_cased c) as [->|I]; [reflexivity|].
  apply C in I. rewrite Hc in I. discriminate.
Qed.

Lemma lower_number d v :
  is_digit d = true -> forallb digit_dot_comma v = true ->
  lower (d :: v) = d :: v.
Proof.
  intros Hd Hv. apply (lower_fixed digit_dot_comma).
  - vm_compute. reflexivity.
  - simpl. unfold digit_dot_comma at 1. rewrite Hd, Hv. reflexivity.
Qed.

Lemma lower_spaces ws : forallb is_space ws = true -> lower ws = ws.
Proof. apply lower_fixed. vm_compute. reflexivity. Qed.

Lemma lower_separators seps :
  forallb colon_space seps = true -> lower seps = seps.
Proof. apply lower_fixed. vm_compute. reflexivity. Qed.

Lemma digit_not_separator d : is_digit d = true -> colon_space d = false.
Proof.
  intros Hd. unfold colon_space.
  destruct (N.eqb_spec d 58) as [->|_]; [vm_compute in Hd; discriminate|].
  destruct (is_space d) eqn:S; [|reflexivity].
  apply space_not_number in S. unfold digit_dot_comma in S.
  rewrite Hd in S. discriminate.
Qed.

Lemma search_skip r pre : forall s,
  (forall x s', In x pre -> match_at r (x :: s') = None) ->
  search r (pre ++ s) = search r s.
Proof.
  induction pre as [|x pre IH]; intros s H; [reflexivity|].
  simpl app. cbn [search]. rewrite (H x (pre ++ s)) by (left; reflexivity).
  apply IH. intros y s' I. apply H. right. exact I.
Qed.

Lemma matchk_Str_head w x s' g (k : str -> groups -> option groups) :
  match w with p :: _ => ci_eq p x = false | [] => False end ->
  matchk (Str w) (x :: s') g k = None.
Proof.
  destruct w as [|p [|q w]]; [contradiction| |]; intros H; cbn [Str matchk];
    rewrite H; reflexivity.
Qed.

Lemma consumption_label_head x s' g (k : str -> groups -> option groups) :
  starts_no_label x = true ->
  matchk consumption_label_re (x :: s') g k = None.
Proof.
  unfold starts_no_label. intros H. apply andb_prop in H.
  destruct H as [Hc Hp]. apply negb_true_iff in Hc, Hp.
  unfold consumption_label_re. cbn [matchk].
  rewrite !matchk_Str_head; auto.
Qed.

Lemma cooling_label_head x s' g (k : str -> groups -> option groups) :
  starts_no_label x = true ->
  matchk cooling_label_re (x :: s') g k = None.
Proof.
  unfold starts_no_label. intros H. apply andb_prop in H.
  destruct H as [Hc Hp]. apply negb_true_iff in Hc, Hp.
  unfold cooling_label_re. cbn [matchk].
  rewrite !matchk_Str_head; auto.
Qed.

Lemma consumption_labels_match label :
  In label consumption_labels -> label_matches consumption_label_re label.
Proof.
  unfold consumption_labels, consumption_label_re.
  intros [<-|[<-|[<-|[]]]] rest g k x Hk; eval_py;
    cbn [matchk Str app]; eval_tests; use_result Hk.
Qed.

Lemma cooling_labels_match label :
  In label cooling_labels -> label_matches cooling_label_re label.
Proof.
  unfold cooling_labels, cooling_label_re.
  intros [<-|[<-|[<-|[]]]] rest g k x Hk; eval_py;
    cbn [matchk Str app]; eval_tests; use_result Hk.
Qed.

(** A label, separators, a number, spaces and a unit at the head of a
    text, under a pattern of the shape of the two power patterns. *)
Lemma match_at_labelled r label seps d v ws u c rest :
  label_matches r label ->
  forallb colon_space seps = true ->
  is_digit d = true -> forallb digit_dot_comma v = true ->
  forallb is_space ws = true -> In (u, c) conversions ->
  match_at (Cat (Group 1 r) (Cat (Star colon_space) quantity_group))
           (label ++ seps ++ d :: v ++ ws ++ u ++ rest)
  = Some [(2%nat, d :: v ++ ws ++ u); (3%nat, u); (1%nat, label)].
Proof.
  intros Hl Hs Hd Hv Hw Hu. unfold match_at, quantity_group, Plus.
  remember (Cat (Star is_space) (unit_group 3)) as T eqn:ET.
  cbn [matchk]. apply Hl. rewrite firstn_consumed.
  apply star_app; [exact Hs|].
  rewrite star_stop by (simpl; apply digit_not_separator, Hd).
  assert (Hdd : digit_dot_comma d = true)
    by (unfold digit_dot_comma; rewrite Hd; reflexivity).
  rewrite Hdd. apply star_app; [exact Hv|].
  rewrite star_stop by (eapply stops_before_unit; eauto).
  subst T. eapply match_unit; eauto.
  replace (d :: v ++ ws ++ u ++ rest) with ((d :: v ++ ws ++ u) ++ rest)
    by (simpl; rewrite <- !app_assoc; reflexivity).
  rewrite firstn_consumed. reflexivity.
Qed.

Lemma lower_labelled pre label seps d v ws u rest :
  forallb colon_space seps = true ->
  is_digit d = true -> forallb digit_dot_comma v = true ->
  forallb is_space ws = true ->
  lower (pre ++ label ++ seps ++ d :: v ++ ws ++ u ++ rest)
  = lower pre ++ lower label ++ seps ++ d :: v ++ ws ++ lower u ++ lower rest.
Proof.
  intros Hs Hd Hv Hw.
  change (d :: v ++ ws ++ u ++ rest) with ((d :: v) ++ ws ++ u ++ rest).
  rewrite !lower_app, (lower_separators seps Hs), (lower_number d v Hd Hv),
    (lower_spaces ws Hw).
  reflexivity.
Qed.

Lemma labelled_power r labels pre label seps d v ws u c rest :
  (forall l, In l labels -> label_matches r l) ->
  (forall x s' g (k : str -> groups -> option groups),
      starts_no_label x = true -> matchk r (x :: s') g k = None) ->
  forallb starts_no_label (lower pre) = true ->
  In (lower label) labels ->
  forallb colon_space seps = true ->
  is_digit d = true -> forallb digit_dot_comma v = true ->
  forallb is_space ws = true -> In (lower u, c) conversions ->
  match search (Cat (Group 1 r) (Cat (Star colon_space) quantity_group))
          (lower (pre ++ label ++ seps ++ d :: v ++ ws ++ u ++ rest)) with
  | Some m => parse_power_value (group 2 m)
  | None => None
  end =
  match float_of_str (replace_char 44 46 (d :: v)) with
  | inr x => Some (float_times x c)
  | inl _ => None
  end.
Proof.
  intros Hm Hh Hp Hl Hs Hd Hv Hw Hu.
  rewrite (lower_labelled pre label seps d v ws u rest Hs Hd Hv Hw).
  rewrite search_skip.
  - destruct (lower label ++ seps ++ d :: v ++ ws ++ lower u ++ lower rest)
      as [|y l] eqn:E; cbn [search]; rewrite <- E;
      rewrite (match_at_labelled r (lower label) seps d v ws (lower u) c
                 (lower rest) (Hm _ Hl) Hs Hd Hv Hw Hu);
      cbn [group Nat.eqb];
      rewrite <- (app_nil_r (lower u));
      apply (parse_number_unit d v ws (lower u) c [] Hd Hv Hw Hu).
  - intros x s' I. rewrite forallb_forall in Hp. specialize (Hp x I).
    unfold match_at. cbn [matchk]. apply Hh, Hp.
Qed.

(** X12. When a text holds, after characters none of which is "c" or "p"
    in any case, a consumption label in any case, then any colons and
    spaces, a number, any spaces and a unit in any case, the consumption
    extracted is the number times the factor of the unit when the number
    is a decimal number, and nothing when it is not. *)
Theorem X12_labelled_consumption pre label seps d v ws u c rest :
  forallb starts_no_label (lower pre) = true ->
  In (lower label) consumption_labels ->
  forallb colon_space seps = true ->
  is_digit d = true -> forallb digit_dot_comma v = true ->
  forallb is_space ws = true -> In (lower u, c) conversions ->
  consumption_w
    (extract_specs_from_text
       (pre ++ label ++ seps ++ d :: v ++ ws ++ u ++ rest)) =
  match float_of_str (replace_char 44 46 (d :: v)) with
  | inr x => Some (float_times x c)
  | inl _ => None
  end.
Proof.
  intros Hp Hl Hs Hd Hv Hw Hu. rewrite extract_consumption.
  apply (labelled_power consumption_label_re consumption_labels); auto.
  - apply consumption_labels_match.
  - intros x s' g k. apply consumption_label_head.
Qed.

Lemma X12_labelled_consumption_witness :
  consumption_w
    (extract_specs_from_text (py "Daikin: Consommation : 1,5 kW environ")) =
  Some (float_times (of_decimal 15 1) (PyInt 1000)).
Proof.
  apply (X12_labelled_consumption (py "Daikin: ") (py "Consommation")
           (py " : ") 49 (py ",5") (py " ") (py "kW") (PyInt 1000)
           (py " environ")); vm_compute; auto.
Defined.

(** X13. The same for the cooling power and its three labels. *)
Theorem X13_labelled_cooling pre label seps d v ws u c rest :
  forallb starts_no_label (lower pre) = true ->
  In (lower label) cooling_labels ->
  forallb colon_space seps = true ->
  is_digit d = true -> forallb digit_dot_comma v = true ->
  forallb is_space ws = true -> In (lower u, c) conversions ->
  cooling_w
    (extract_specs_from_text
       (pre ++ label ++ seps ++ d :: v ++ ws ++ u ++ rest)) =
  match float_of_str (replace_char 44 46 (d :: v)) with
  | inr x => Some (float_times x c)
  | inl _ => None
  end.
Proof.
  intros Hp Hl Hs Hd Hv Hw Hu. rewrite extract_cooling.
  apply (labelled_power cooling_label_re cooling_labels); auto.
  - apply cooling_labels_match.
  - intros x s' g k. apply cooling_label_head.
Qed.

Lemma X13_labelled_cooling_witness :
  cooling_w
    (extract_specs_from_text (py "Data: Cooling Capacity 12000 BTU/h")) =
  Some (float_times (of_decimal 12000 0) (PyFloat (of_decimal 29307107 8))).
Proof.
  apply (X13_labelled_cooling (py "Data: ") (py "Cooling Capacity")
           (py " ") 49 (py "2000") (py " ") (py "BTU")
           (PyFloat (of_decimal 29307107 8)) (py "/h"));
    vm_compute; auto.
Defined.

(** ** A label and a class *)

Lemma class_labels_match label :
  In label class_labels -> label_matches class_label_re label.
Proof.
  unfold class_labels, class_label_re.
  intros [<-|[<-|[]]] rest g k x Hk; eval_py;
    cbn [matchk Str app]; eval_tests; use_result Hk.
Qed.

Lemma class_label_head x s' g (k : str -> groups -> option groups) :
  starts_no_class_label x = true ->
  matchk class_label_re (x :: s') g k = None.
Proof.
  unfold starts_no_class_label. intros H. apply andb_prop in H.
  destruct H as [Hc He]. apply negb_true_iff in Hc, He.
  unfold class_label_re. cbn [matchk].
  rewrite !matchk_Str_head; auto.
Qed.

Lemma class_letter_lower l :
  class_letter l = true ->
  exists l', lower_char l = [l'] /\ class_letter l' = true
             /\ colon_space l' = false.
Proof.
  unfold class_letter, in_range. intros H.
  assert (I : In l [65; 66; 67; 68; 69; 70; 71;
                    97; 98; 99; 100; 101; 102; 103]).
  { apply orb_prop in H. destruct H as [H|H]; apply andb_prop in H;
      destruct H as [H1 H2]; apply N.leb_le in H1; apply N.leb_le in H2;
      simpl; lia. }
  simpl in I.
  repeat (destruct I as [<-|I];
          [eexists; split; [reflexivity|split; vm_compute; reflexivity]|]).
  contradiction.
Qed.

Lemma lower_pluses ps : forallb plus_sign ps = true -> lower ps = ps.
Proof. apply lower_fixed. vm_compute. reflexivity. Qed.

Lemma match_at_class label seps l ps rest :
  In label class_labels ->
  forallb colon_space seps = true ->
  class_letter l = true -> colon_space l = false ->
  forallb plus_sign ps = true -> stops plus_sign rest ->
  match_at class_re (label ++ seps ++ l :: ps ++ rest)
  = Some [(2%nat, l :: ps); (1%nat, label)].
Proof.
  intros Hl Hs Hc Hn Hp Hr.
  change class_re
    with (Cat (Group 1 class_label_re)
              (Cat (Star colon_space)
                   (Group 2 (Cat (Class class_letter) (Star plus_sign))))).
  unfold match_at. cbn [matchk]. apply (class_labels_match label Hl).
  rewrite firstn_consumed.
  apply star_app; [exact Hs|].
  rewrite star_stop by exact Hn.
  rewrite Hc. apply star_app; [exact Hp|].
  rewrite star_stop by exact Hr.
  change (l :: ps ++ rest) with ((l :: ps) ++ rest).
  rewrite firstn_consumed. reflexivity.
Qed.

(** X14. When a text holds, after characters none of which is "c" or "e"
    in any case, a class label in any case, then any colons and spaces, a
    letter from A to G in either case, any number of "+" and then
    something other than "+", the energy class extracted is that letter
    in lower case with its "+" signs. *)
Theorem X14_labelled_class pre label seps l ps rest :
  forallb starts_no_class_label (lower pre) = true ->
  In (lower label) class_labels ->
  forallb colon_space seps = true ->
  class_letter l = true -> forallb plus_sign ps = true ->
  stops plus_sign (lower rest) ->
  energy_class
    (extract_specs_from_text (pre ++ label ++ seps ++ l :: ps ++ rest))
  = Some (lower (l :: ps)).
Proof.
  intros Hp Hl Hs Hc Hps Hr.
  change (energy_class (extract_specs_from_text
                          (pre ++ label ++ seps ++ l :: ps ++ rest)))
    with (find_energy_class
            (lower (pre ++ label ++ seps ++ l :: ps ++ rest))).
  change (l :: ps ++ rest) with ([l] ++ ps ++ rest).
  change (l :: ps) with ([l] ++ ps).
  rewrite !lower_app, (lower_separators seps Hs), (lower_pluses ps Hps).
  destruct (class_letter_lower l Hc) as (l' & El & Hc' & Hn).
  change (lower [l]) with (lower_char l ++ []). rewrite El. simpl app.
  unfold find_energy_class. rewrite search_skip.
  - destruct (lower label ++ seps ++ l' :: ps ++ lower rest)
      as [|y t] eqn:E; cbn [search]; rewrite <- E;
      rewrite (match_at_class (lower label) seps l' ps (lower rest)
                 Hl Hs Hc' Hn Hps Hr);
      reflexivity.
  - intros x s' I. rewrite forallb_forall in Hp. specialize (Hp x I).
    change class_re
      with (Cat (Group 1 class_label_re)
                (Cat (Star colon_space)
                     (Group 2 (Cat (Class class_letter) (Star plus_sign))))).
    unfold match_at. cbn [matchk]. apply class_label_head, Hp.
Qed.

Lemma X14_labelled_class_witness :
  energy_class
    (extract_specs_from_text (py "Daikin: Classe Énergétique: A+++, 2024"))
  = Some (py "a+++").
Proof.
  apply (X14_labelled_class (py "Daikin: ") (py "Classe Énergétique")
           (py ": ") 65 (py "+++") (py ", 2024")); vm_compute; auto.
Defined.

(** ** Case *)

Lemma in_range_bounds lo hi c : in_range lo hi c = true -> lo <= c <= hi.
Proof.
  unfold in_range. intros H. apply andb_prop in H. destruct H as [H1 H2].
  apply N.leb_le in H1. apply N.leb_le in H2. lia.
Qed.

Lemma lower_char_plain x :
  (x < 65 \/ 90 < x) -> (x < 192 \/ 222 < x) -> x <> 304 -> x <> 8490 ->
  lower_char x = [x].
Proof.
  intros H1 H2 H3 H4. unfold lower_char.
  destruct (in_range 65 90 x) eqn:R1;
    [apply in_range_bounds in R1; lia|].
  destruct (in_range 192 222 x) eqn:R2;
    [apply in_range_bounds in R2; lia|].
  simpl andb.
  destruct (N.eqb_spec x 304); [contradiction|].
  destruct (N.eqb_spec x 8490); [contradiction|reflexivity].
Qed.

Lemma lower_char_fixed c x : In x (lower_char c) -> lower_char x = [x].
Proof.
  unfold lower_char at 1.
  destruct (in_range 65 90 c) eqn:R1.
  { apply in_range_bounds in R1. intros [<-|[]].
    apply lower_char_plain; lia. }
  destruct (in_range 192 222 c && negb (c =? 215)) eqn:R2.
  { apply andb_prop in R2. destruct R2 as [R2 _].
    apply in_range_bounds in R2. intros [<-|[]].
    apply lower_char_plain; lia. }
  destruct (N.eqb_spec c 304) as [->|N1].
  { intros [<-|[<-|[]]]; reflexivity. }
  destruct (N.eqb_spec c 8490) as [->|N2].
  { intros [<-|[]]. reflexivity. }
  intros [<-|[]]. unfold lower_char. rewrite R1, R2.
  destruct (N.eqb_spec c 304); [contradiction|].
  destruct (N.eqb_spec c 8490); [contradiction|reflexivity].
Qed.

Lemma lower_lower t : lower (lower t) = lower t.
Proof.
  induction t as [|c t IH]; [reflexivity|].
  change (lower (c :: t)) with (lower_char c ++ lower t).
  rewrite lower_app, IH. f_equal.
  assert (F : forall l, (forall x, In x l -> lower_char x = [x]) ->
                        lower l = l).
  { induction l as [|y l IHl]; intros H; [reflexivity|].
    change (lower (y :: l)) with (lower_char y ++ lower l).
    rewrite (H y) by (left; reflexivity). rewrite IHl; [reflexivity|].
    intros x I. apply H. right. exact I. }
  apply F. intros x. apply lower_char_fixed.
Qed.

(** X15. The extraction does not see the case of the text: a text and its
    lower-cased form give the same four fields. *)
Theorem X15_extraction_ignores_case (t : str) :
  extract_specs_from_text (lower t) = extract_specs_from_text t.
Proof. unfold extract_specs_from_text. rewrite lower_lower. reflexivity. Qed.
